(** * nuliga-to-cal: the team-portrait scraper, embedded and verified

    A shallow embedding of [team_portrait_to_gcal_csv.py].

    - A Python [str] is a list of Unicode code points ([N]).
    - A call that may raise is a [result]; [continue] in the row loop is
      the outcome [Skip].
    - The network ([requests.get]), the HTML parser ([BeautifulSoup(html,
      "html.parser")]) and [urljoin] are variables of the section that
      holds the scraper; each of them may raise. A parsed page is a
      [node] tree.
    - Writing the file may fail: the path may not be writable, and the
      text may hold a code point UTF-8 does not encode; so may the
      closing [print].
    - [datetime] follows CPython's proleptic Gregorian arithmetic
      ([_ymd2ord], [_ord2ymd]); the csv module is modelled with the
      default (excel) dialect, writer and reader. *)

From Stdlib Require Import String Ascii.
From Stdlib Require Import List ZArith NArith Lia Bool.
Import ListNotations.
Local Close Scope string_scope.
Local Open Scope Z_scope.

(** ** Python strings *)

Definition char := N.
Definition str := list char.

(** An ASCII literal as a Python string. *)
Definition lit (s : string) : str := map N_of_ascii (list_ascii_of_string s).
Arguments lit s%_string.

Definition str_eqb (a b : str) : bool :=
  if list_eq_dec N.eq_dec a b then true else false.

(** Truthiness of a string: [if s:]. *)
Definition truthy (s : str) : bool :=
  match s with [] => false | _ :: _ => true end.

(** [x or d] for [x : str | None]. *)
Definition or_str (x : option str) (d : str) : str :=
  match x with
  | Some (c :: s) => c :: s
  | _ => d
  end.

(** [str.isspace] for one code point (Unicode 14 as shipped with
    CPython 3.11): the characters [str.split()] and [str.strip()] treat as
    white space. *)
Definition is_space (c : char) : bool :=
  existsb (N.eqb c)
    [9; 10; 11; 12; 13; 28; 29; 30; 31; 32; 133; 160; 5760;
     8192; 8193; 8194; 8195; 8196; 8197; 8198; 8199; 8200; 8201; 8202;
     8232; 8233; 8239; 8287; 12288]%N.

Definition SP : char := 32%N.
Definition NBSP : char := 160%N.

(** [s.replace(a, b)] for single characters. *)
Definition replace_char (a b : char) (s : str) : str :=
  map (fun c => if N.eqb c a then b else c) s.

(** [s.split()]: maximal runs of non-space characters. [cur] holds the
    current run, reversed. *)
Fixpoint split_go (cur : str) (s : str) : list str :=
  match s with
  | [] => match cur with [] => [] | _ => [rev cur] end
  | c :: s' =>
      if is_space c then
        match cur with
        | [] => split_go [] s'
        | _ => rev cur :: split_go [] s'
        end
      else split_go (c :: cur) s'
  end.

Definition split (s : str) : list str := split_go [] s.

(** [sep.join(parts)]. *)
Fixpoint join (sep : str) (parts : list str) : str :=
  match parts with
  | [] => []
  | [p] => p
  | p :: rest => p ++ sep ++ join sep rest
  end.

Fixpoint lstrip (s : str) : str :=
  match s with
  | c :: s' => if is_space c then lstrip s' else s
  | [] => []
  end.

Definition rstrip (s : str) : str := rev (lstrip (rev s)).

(** [s.strip()]. *)
Definition strip (s : str) : str := rstrip (lstrip s).

(** [norm]: replace no-break spaces, [split()], join with one space,
    [strip()]. An absent argument counts as the empty string. *)
Definition norm (s : str) : str :=
  strip (join [SP] (split (replace_char NBSP SP (or_str (Some s) [])))).

Fixpoint is_prefix (p s : str) : bool :=
  match p, s with
  | [], _ => true
  | a :: p', b :: s' => N.eqb a b && is_prefix p' s'
  | _ :: _, [] => false
  end.

(** [p in s]. *)
Fixpoint contains (p s : str) : bool :=
  is_prefix p s ||
  match s with
  | [] => false
  | _ :: s' => contains p s'
  end.

(** ** Digits and the regular expressions *)

(** First code point of each run of ten decimal digits (category Nd,
    Unicode 14): what [\d] matches and [int] converts. *)
Definition nd_zeros : list N :=
  [48; 1632; 1776; 1984; 2406; 2534; 2662; 2790; 2918; 3046; 3174; 3302;
   3430; 3558; 3664; 3792; 3872; 4160; 4240; 6112; 6160; 6470; 6608; 6784;
   6800; 6992; 7088; 7232; 7248; 42528; 43216; 43264; 43472; 43504; 43600;
   44016; 65296; 66720; 68912; 69734; 69872; 69942; 70096; 70384; 70736;
   70864; 71248; 71360; 71472; 71904; 72016; 72784; 73040; 73120; 92768;
   92864; 93008; 120782; 120792; 120802; 120812; 120822; 123200; 123632;
   125264; 130032]%N.

Fixpoint digit_in (zs : list N) (c : char) : option Z :=
  match zs with
  | [] => None
  | z :: zs' =>
      if (N.leb z c && N.ltb c (z + 10))%N then Some (Z.of_N (c - z))
      else digit_in zs' c
  end.

Definition digit_value (c : char) : option Z := digit_in nd_zeros c.

Definition is_digit (c : char) : bool :=
  match digit_value c with Some _ => true | None => false end.

(** [int(s)] on a string of decimal digits (the only strings the program
    converts are regex groups of digits). *)
Definition py_int (s : str) : Z :=
  fold_left
    (fun acc c => 10 * acc + match digit_value c with Some d => d | None => 0 end)
    s 0.

Definition DOT : char := 46%N.
Definition COLON : char := 58%N.

(** [DATE_RE = (\d{2})\.(\d{2})\.(\d{4})] anchored at the head of [s]:
    the three groups. *)
Definition DATE_RE_at (s : str) : option (str * str * str) :=
  match s with
  | d1 :: d2 :: p1 :: m1 :: m2 :: p2 :: y1 :: y2 :: y3 :: y4 :: _ =>
      if forallb is_digit [d1; d2; m1; m2; y1; y2; y3; y4]
         && N.eqb p1 DOT && N.eqb p2 DOT
      then Some ([d1; d2], [m1; m2], [y1; y2; y3; y4])
      else None
  | _ => None
  end.

(** [pattern.search(s)] for a pattern anchored by [at_]: the match at the
    leftmost position that has one. *)
Fixpoint re_search {G : Type} (at_ : str -> option G) (s : str) : option G :=
  match at_ s with
  | Some g => Some g
  | None =>
      match s with
      | [] => None
      | _ :: s' => re_search at_ s'
      end
  end.

(** [DATE_RE.search(s)]. *)
Definition DATE_RE_search : str -> option (str * str * str) := re_search DATE_RE_at.

(** [TIME_RE = (\d{1,2}):(\d{2})] anchored at the head of [s]; the greedy
    [\d{1,2}] tries two digits first. *)
Definition TIME_RE_at (s : str) : option (str * str) :=
  match s with
  | h1 :: h2 :: c :: m1 :: m2 :: _ =>
      if forallb is_digit [h1; h2; m1; m2] && N.eqb c COLON
      then Some ([h1; h2], [m1; m2])
      else
        if forallb is_digit [h1; c; m1] && N.eqb h2 COLON
        then Some ([h1], [c; m1])
        else None
  | [h1; c; m1; m2] =>
      if forallb is_digit [h1; m1; m2] && N.eqb c COLON
      then Some ([h1], [m1; m2])
      else None
  | _ => None
  end.

(** [TIME_RE.search(s)]. *)
Definition TIME_RE_search : str -> option (str * str) := re_search TIME_RE_at.

(** The longest prefix of digits and the rest. *)
Fixpoint span_digits (s : str) : str * str :=
  match s with
  | c :: s' =>
      if is_digit c then let (d, r) := span_digits s' in (c :: d, r)
      else ([], s)
  | [] => ([], [])
  end.

(** [\d+:\d+] anchored at the head of [s]: the whole match. *)
Definition SCORE_RE_at (s : str) : option str :=
  match span_digits s with
  | ((_ :: _) as a, c :: r) =>
      if N.eqb c COLON then
        match span_digits r with
        | ((_ :: _) as b, _) => Some (a ++ [COLON] ++ b)
        | _ => None
        end
      else None
  | _ => None
  end.

(** [re.search(r"\d+:\d+", s)], [group(0)] of the leftmost match. *)
Definition SCORE_RE_search : str -> option str := re_search SCORE_RE_at.

(** ** Outcomes of calls that may raise *)

Inductive exn : Type :=
| ValueError
| OverflowError
| RuntimeError
| RequestException
| ParserRejectedMarkup
| OSError
| UnicodeEncodeError.

Inductive result (A : Type) : Type :=
| Ok (a : A)
| Raise (e : exn).
Arguments Ok {A} a.
Arguments Raise {A} e.

Definition bind {A B} (r : result A) (k : A -> result B) : result B :=
  match r with
  | Ok a => k a
  | Raise e => Raise e
  end.

Notation "x <- r ;; k" := (bind r (fun x => k))
  (at level 61, r at next level, right associativity).

(** ** datetime *)

Module Datetime.

Record datetime : Type := mk {
  year : Z; month : Z; day : Z; hour : Z; minute : Z
}.

Definition MAXORDINAL : Z := 3652059.
Definition DI400Y : Z := 146097.
Definition DI100Y : Z := 36524.
Definition DI4Y : Z := 1461.

Definition is_leap (y : Z) : bool :=
  (y mod 4 =? 0) && (negb (y mod 100 =? 0) || (y mod 400 =? 0)).

Definition DAYS_IN_MONTH (m : Z) : Z :=
  match m with
  | 1 => 31 | 2 => 28 | 3 => 31 | 4 => 30 | 5 => 31 | 6 => 30
  | 7 => 31 | 8 => 31 | 9 => 30 | 10 => 31 | 11 => 30 | 12 => 31
  | _ => 0
  end.

Definition DAYS_BEFORE_MONTH (m : Z) : Z :=
  match m with
  | 1 => 0 | 2 => 31 | 3 => 59 | 4 => 90 | 5 => 120 | 6 => 151
  | 7 => 181 | 8 => 212 | 9 => 243 | 10 => 273 | 11 => 304 | 12 => 334
  | _ => 0
  end.

Definition days_in_month (y m : Z) : Z :=
  if (m =? 2) && is_leap y then 29 else DAYS_IN_MONTH m.

Definition days_before_year (y : Z) : Z :=
  let y1 := y - 1 in y1 * 365 + y1 / 4 - y1 / 100 + y1 / 400.

Definition days_before_month (y m : Z) : Z :=
  DAYS_BEFORE_MONTH m + (if (2 <? m) && is_leap y then 1 else 0).

Definition ymd2ord (y m d : Z) : Z :=
  days_before_year y + days_before_month y m + d.

Definition ord2ymd (n0 : Z) : Z * Z * Z :=
  let n := n0 - 1 in
  let n400 := n / DI400Y in
  let n := n mod DI400Y in
  let y := n400 * 400 + 1 in
  let n100 := n / DI100Y in
  let n := n mod DI100Y in
  let n4 := n / DI4Y in
  let n := n mod DI4Y in
  let n1 := n / 365 in
  let n := n mod 365 in
  let y := y + n100 * 100 + n4 * 4 + n1 in
  if (n1 =? 4) || (n100 =? 4) then (y - 1, 12, 31)
  else
    let leapyear := (n1 =? 3) && (negb (n4 =? 24) || (n100 =? 3)) in
    let m := Z.shiftr (n + 50) 5 in
    let preceding :=
      DAYS_BEFORE_MONTH m + (if (2 <? m) && leapyear then 1 else 0) in
    if n <? preceding then
      let m' := m - 1 in
      let preceding' :=
        preceding
        - (DAYS_IN_MONTH m' + (if (m' =? 2) && leapyear then 1 else 0)) in
      (y, m', n - preceding' + 1)
    else (y, m, n - preceding + 1).

(** The constructor [datetime(year, month, day, hour, minute)]: the range
    checks of [_check_date_fields] and [_check_time_fields]. *)
Definition valid_fields (y m d hh mm : Z) : bool :=
  (1 <=? y) && (y <=? 9999) && (1 <=? m) && (m <=? 12)
  && (1 <=? d) && (d <=? days_in_month y m)
  && (0 <=? hh) && (hh <=? 23) && (0 <=? mm) && (mm <=? 59).

Definition make (y m d hh mm : Z) : result datetime :=
  if valid_fields y m d hh mm then Ok (mk y m d hh mm) else Raise ValueError.

Definition valid (t : datetime) : Prop :=
  valid_fields (year t) (month t) (day t) (hour t) (minute t) = true.

Definition toordinal (t : datetime) : Z := ymd2ord (year t) (month t) (day t).

(** Minutes since the start of day 0 of the proleptic calendar. *)
Definition to_minutes (t : datetime) : Z :=
  toordinal t * 1440 + hour t * 60 + minute t.

(** [t + timedelta(minutes=n)]: [OverflowError] when the day leaves
    [1 .. MAXORDINAL] (which also covers a [timedelta] out of range). *)
Definition add_minutes (t : datetime) (n : Z) : result datetime :=
  let total := to_minutes t + n in
  let days := total / 1440 in
  let rem := total mod 1440 in
  if (0 <? days) && (days <=? MAXORDINAL) then
    let '(y, m, d) := ord2ymd days in
    Ok (mk y m d (rem / 60) (rem mod 60))
  else Raise OverflowError.

(** Comparison of datetimes: lexicographic on the fields. *)
Definition ltb (a b : datetime) : bool :=
  (year a <? year b) || ((year a =? year b) &&
  ((month a <? month b) || ((month a =? month b) &&
  ((day a <? day b) || ((day a =? day b) &&
  ((hour a <? hour b) || ((hour a =? hour b) &&
  (minute a <? minute b)))))))).

Definition digit_char (d : Z) : char := Z.to_N (48 + d).

Definition pad2 (n : Z) : str := [digit_char (n / 10 mod 10); digit_char (n mod 10)].

Definition pad4 (n : Z) : str :=
  [digit_char (n / 1000 mod 10); digit_char (n / 100 mod 10);
   digit_char (n / 10 mod 10); digit_char (n mod 10)].

Definition SLASH : char := 47%N.

(** [strftime("%m/%d/%Y")], the year zero-padded to four digits. *)
Definition fmt_date (t : datetime) : str :=
  pad2 (month t) ++ [SLASH] ++ pad2 (day t) ++ [SLASH] ++ pad4 (year t).

(** [strftime("%H:%M")]. *)
Definition fmt_time (t : datetime) : str :=
  pad2 (hour t) ++ [COLON] ++ pad2 (minute t).

End Datetime.

Import Datetime.

(** [parse_datetime(date_text, time_text)]. *)
Definition parse_datetime (date_text : str) (time_text : option str)
  : result (option datetime) :=
  let date_text := norm date_text in
  let time_text := norm (or_str time_text []) in
  match DATE_RE_search date_text with
  | None => Ok None
  | Some (d, m, y) =>
      let '(day, month, year) := (py_int d, py_int m, py_int y) in
      let '(hh, mm) :=
        match TIME_RE_search time_text with
        | Some (h, mi) => (py_int h, py_int mi)
        | None => (0, 0)
        end in
      t <- Datetime.make year month day hh mm ;; Ok (Some t)
  end.


(** ** Parsed HTML (the part of a BeautifulSoup tree the program reads)

    [Text] is a string that [get_text] returns; [Comment] stands for the
    strings it passes over (comments, declarations, the content of script
    and style elements); [Elem] is a tag with its name, attributes and
    children. *)

Unset Elimination Schemes.
Inductive node : Type :=
| Text (s : str)
| Comment (s : str)
| Elem (name : str) (attrs : list (str * str)) (children : list node).
Set Elimination Schemes.

Definition name_of (n : node) : str :=
  match n with
  | Elem nm _ _ => nm
  | _ => []
  end.

(** The strings [get_text] sees below a node, in document order; comments
    are not among them. *)
Fixpoint all_strings (n : node) : list str :=
  match n with
  | Text s => [s]
  | Comment _ => []
  | Elem _ _ kids => flat_map all_strings kids
  end.

(** [_all_strings(strip=True)]: each string stripped, empty ones dropped. *)
Definition stripped_strings (n : node) : list str :=
  filter truthy (map strip (all_strings n)).

(** [n.get_text(sep, strip=...)]. *)
Definition get_text (sep : str) (strip_ : bool) (n : node) : str :=
  join sep (if strip_ then stripped_strings n else all_strings n).

(** The tags of a subtree in document order, the root first. *)
Fixpoint tags (n : node) : list node :=
  match n with
  | Elem _ _ kids => n :: flat_map tags kids
  | _ => []
  end.

(** The tags strictly below a node, in document order: what [find] and
    [find_all] search. *)
Definition descendant_tags (n : node) : list node :=
  match n with
  | Elem _ _ kids => flat_map tags kids
  | _ => []
  end.

Definition has_name (nm : str) (n : node) : bool := str_eqb (name_of n) nm.

(** [n.find_all(nm)]. *)
Definition find_all (nm : str) (n : node) : list node :=
  filter (has_name nm) (descendant_tags n).

(** [n.find(nm)]. *)
Definition find (nm : str) (n : node) : option node :=
  List.find (has_name nm) (descendant_tags n).

(** [tag.get(key)]. *)
Fixpoint attr_get (key : str) (attrs : list (str * str)) : option str :=
  match attrs with
  | [] => None
  | (k, v) :: rest => if str_eqb k key then Some v else attr_get key rest
  end.

Definition attrs_of (n : node) : list (str * str) :=
  match n with
  | Elem _ a _ => a
  | _ => []
  end.

(** The name matches [^h[1-4]$] ([$] also matches before a final newline). *)
Definition is_h1_4 (nm : str) : bool :=
  match nm with
  | h :: d :: tl =>
      N.eqb h 104 && N.leb 49 d && N.leb d 52
      && match tl with [] => true | [nl] => N.eqb nl 10 | _ => false end
  | _ => false
  end.

(** [tds[i]]; the row parser only indexes below the length it has checked. *)
Definition item (tds : list node) (i : nat) : node := nth i tds (Text []).

(** [cell.get_text(" ", strip=True)], normalised. *)
Definition cell_text (cell : node) : str := norm (get_text [SP] true cell).

(** ** The output record: a dict with the nine CSV keys *)

Record MatchRecord : Type := {
  Subject : str;
  Start_Date : str;
  Start_Time : str;
  End_Date : str;
  End_Time : str;
  All_Day_Event : str;
  Description : str;
  Location : str;
  Private : str
}.

Inductive row_outcome : Type :=
| Skip
| Emit (r : MatchRecord).

(** En dash, U+2013. *)
Definition EN_DASH : char := 8211%N.

Section Scraper.

(** [requests.get(url, ...)] followed by [raise_for_status()]: the body,
    or [None] when either raises. *)
Variable http_get : str -> option str.
(** [BeautifulSoup(html, "html.parser")]: the document node, or [None]
    when the parser rejects the markup and the call raises
    [ParserRejectedMarkup]. *)
Variable parse_html : str -> option node.
(** [urljoin(base, url)]; [None] when it raises [ValueError]. *)
Variable urljoin : str -> str -> option str.

Definition fetch (url : str) : result str :=
  match http_get url with
  | Some body => Ok body
  | None => Raise RequestException
  end.

(** The inner loop of [hall_address_from_cell] over [tag.find_all_next()]. *)
Fixpoint collect_blocks (sibs : list node) (addr_lines : list str) : list str :=
  match sibs with
  | [] => addr_lines
  | sib :: rest =>
      if truthy (name_of sib) && is_h1_4 (name_of sib) then addr_lines
      else
        let addr_lines :=
          if existsb (str_eqb (name_of sib)) [lit "p"; lit "div"; lit "address"]
          then
            let text := norm (get_text [SP] true sib) in
            if truthy text then addr_lines ++ [text] else addr_lines
          else addr_lines in
        if (3 <=? length addr_lines)%nat then addr_lines
        else collect_blocks rest addr_lines
  end.

(** The outer loop over [hs.find_all(re.compile("^h[1-4]$"))], run on the
    tags of the page in document order: at the first heading that
    contains the marker, the tags after it are [tag.find_all_next()]. *)
Fixpoint scan_headings (elems : list node) : list str :=
  match elems with
  | [] => []
  | tag :: rest =>
      if is_h1_4 (name_of tag)
         && contains (lit "Hallenadresse") (get_text [] false tag)
      then collect_blocks rest []
      else scan_headings rest
  end.

Definition hall_address_from_cell (cell : node) (page_url : str) : result str :=
  let fallback := norm (get_text [SP] true cell) in
  match find (lit "a") cell with
  | None => Ok fallback
  | Some a =>
      match attr_get (lit "href") (attrs_of a) with
      | None => Ok fallback
      | Some [] => Ok fallback
      | Some ((_ :: _) as href) =>
          match urljoin page_url href with
          | None => Raise ValueError
          | Some hall_url =>
              match fetch hall_url with
              | Raise _ => Ok fallback
              | Ok html =>
                  match parse_html html with
                  | None => Raise ParserRejectedMarkup
                  | Some hs =>
                      let addr_lines := scan_headings (descendant_tags hs) in
                      let code := norm (get_text [] true a) in
                      let addr :=
                        match addr_lines with
                        | [] => fallback
                        | _ => join (lit " | ") addr_lines
                        end in
                      if truthy code && negb (contains code addr)
                      then Ok (code ++ [SP; EN_DASH; SP] ++ addr)
                      else Ok addr
                  end
              end
          end
      end
  end.

(** [find_schedule_tables], on the tags of the page in document order:
    [heading.find_next("table")] is the first table among the later tags. *)
Fixpoint schedule_tables_in (elems : list node) : list node :=
  match elems with
  | [] => []
  | heading :: rest =>
      (if existsb (str_eqb (name_of heading)) [lit "h2"; lit "h3"]
          && contains (lit "Spieltermine") (get_text [] false heading)
       then match List.find (has_name (lit "table")) rest with
            | Some tbl => [tbl]
            | None => []
            end
       else [])
      ++ schedule_tables_in rest
  end.

Definition find_schedule_tables (soup : node) : list node :=
  schedule_tables_in (descendant_tags soup).

Variable url : str.
Variable default_duration : Z.
Variable enrich_halls : bool.

(** The body of the row loop of [parse_team_portrait], from
    [tds = tr.find_all("td")] on. *)
Definition parse_row (tds : list node) : result row_outcome :=
  if (length tds <? 7)%nat then Ok Skip
  else
    let date_txt := cell_text (item tds 1) in
    let time_txt := cell_text (item tds 2) in
    let hall_cell := item tds 3 in
    let nr_txt := if (5 <=? length tds)%nat then cell_text (item tds 4) else [] in
    let home := if (6 <=? length tds)%nat then cell_text (item tds 5) else [] in
    let away := if (7 <=? length tds)%nat then cell_text (item tds 6) else [] in
    let result := if (8 <=? length tds)%nat then cell_text (item tds 7) else [] in
    match DATE_RE_search date_txt with
    | None => Ok Skip
    | Some _ =>
        start <- parse_datetime date_txt (Some (or_str (Some time_txt) (lit "19:30"))) ;;
        match start with
        | None => Ok Skip
        | Some start_dt =>
            end_dt <- add_minutes start_dt default_duration ;;
            location <-
              (if enrich_halls then hall_address_from_cell hall_cell url
               else Ok (norm (get_text [SP] true hall_cell))) ;;
            let desc_parts := [] in
            let desc_parts :=
              if truthy nr_txt then desc_parts ++ [lit "Spiel Nr.: " ++ nr_txt]
              else desc_parts in
            let desc_parts :=
              if truthy result then
                match SCORE_RE_search result with
                | Some mscore => desc_parts ++ [lit "Ergebnis: " ++ mscore]
                | None => desc_parts
                end
              else desc_parts in
            let description := join (lit " | ") desc_parts in
            let subject := home ++ lit " vs. " ++ away in
            Ok (Emit {|
              Subject := subject;
              Start_Date := fmt_date start_dt;
              Start_Time := fmt_time start_dt;
              End_Date := fmt_date end_dt;
              End_Time := fmt_time end_dt;
              All_Day_Event := lit "False";
              Description := description;
              Location := location;
              Private := lit "False"
            |})
        end
    end.

(** The two nested loops: rows appended in document order, the first
    exception ends the run. *)
Fixpoint parse_rows (trs : list node) (rows_out : list MatchRecord)
  : result (list MatchRecord) :=
  match trs with
  | [] => Ok rows_out
  | tr :: rest =>
      o <- parse_row (find_all (lit "td") tr) ;;
      match o with
      | Skip => parse_rows rest rows_out
      | Emit r => parse_rows rest (rows_out ++ [r])
      end
  end.

Fixpoint parse_tables (tables : list node) (rows_out : list MatchRecord)
  : result (list MatchRecord) :=
  match tables with
  | [] => Ok rows_out
  | tbl :: rest =>
      rows_out <- parse_rows (find_all (lit "tr") tbl) rows_out ;;
      parse_tables rest rows_out
  end.

(** [parse_team_portrait(url, default_duration, enrich_halls)]. The team
    name the source looks up first is not used afterwards and is left
    out. *)
Definition parse_team_portrait : result (list MatchRecord) :=
  html <- fetch url ;;
  match parse_html html with
  | None => Raise ParserRejectedMarkup
  | Some soup =>
      match find_schedule_tables soup with
      | [] => Raise RuntimeError
      | tables => parse_tables tables []
      end
  end.

End Scraper.

(** ** The csv module, excel dialect

    Delimiter comma, quote character the double quote, [doublequote],
    [QUOTE_MINIMAL], line terminator CR LF, no escape character, not
    strict. The file is opened with an empty [newline] argument, so what
    is written is what is read; its
    content is modelled as text (UTF-8 encoding and decoding are not
    part of the model, nor is the reader's configurable field size
    limit). *)

Module Csv.

Definition COMMA : char := 44%N.
Definition QUOTE : char := 34%N.
Definition CR : char := 13%N.
Definition LF : char := 10%N.

Definition is_cr (c : char) : bool := N.eqb c CR.
Definition is_lf (c : char) : bool := N.eqb c LF.

(** The characters that make [QUOTE_MINIMAL] quote a field. *)
Definition special (c : char) : bool :=
  N.eqb c COMMA || N.eqb c QUOTE || is_cr c || is_lf c.

(** [join_append_data]: the field with every quote character doubled. *)
Fixpoint escape (f : str) : str :=
  match f with
  | [] => []
  | c :: f' => if N.eqb c QUOTE then QUOTE :: QUOTE :: escape f' else c :: escape f'
  end.

Definition quote_field (f : str) : str :=
  if existsb special f then [QUOTE] ++ escape f ++ [QUOTE] else escape f.

(** [writer.writerow(fields)]: a lone empty field is written quoted. *)
Definition writerow (fields : list str) : str :=
  match fields with
  | [[]] => [QUOTE; QUOTE; CR; LF]
  | _ => join [COMMA] (map quote_field fields) ++ [CR; LF]
  end.

(** What the reader is fed: the characters of each line the file iterator
    yields, then an end-of-line signal. A line ends after a line feed,
    after a carriage return that no line feed follows, and at the end of
    the file. *)
Inductive event : Type :=
| Ch (c : char)
| EOL.

Fixpoint events (s : str) : list event :=
  match s with
  | [] => []
  | c :: s' =>
      Ch c ::
      (if is_lf c then EOL :: events s'
       else if is_cr c then
         match s' with
         | c2 :: _ => if is_lf c2 then events s' else EOL :: events s'
         | [] => [EOL]
         end
       else
         match s' with
         | [] => [EOL]
         | _ :: _ => events s'
         end)
  end.

Inductive state : Type :=
| START_RECORD
| START_FIELD
| IN_FIELD
| IN_QUOTED_FIELD
| QUOTE_IN_QUOTED_FIELD
| EAT_CRNL.

Record reader : Type := mkReader {
  st : state;
  fields : list str;
  field : str
}.

Definition parse_reset : reader := mkReader START_RECORD [] [].

Definition parse_save_field (st' : state) (r : reader) : reader :=
  mkReader st' (fields r ++ [field r]) [].

Definition parse_add_char (st' : state) (c : char) (r : reader) : reader :=
  mkReader st' (fields r) (field r ++ [c]).

Definition set_state (st' : state) (r : reader) : reader :=
  mkReader st' (fields r) (field r).

Definition process_start_field (e : event) (r : reader) : reader :=
  match e with
  | EOL => parse_save_field START_RECORD r
  | Ch c =>
      if is_lf c || is_cr c then parse_save_field EAT_CRNL r
      else if N.eqb c QUOTE then set_state IN_QUOTED_FIELD r
      else if N.eqb c COMMA then parse_save_field START_FIELD r
      else parse_add_char IN_FIELD c r
  end.

(** [parse_process_char]; [None] is [_csv.Error]. *)
Definition parse_process_char (e : event) (r : reader) : option reader :=
  match st r with
  | START_RECORD =>
      match e with
      | EOL => Some r
      | Ch c =>
          if is_lf c || is_cr c then Some (set_state EAT_CRNL r)
          else Some (process_start_field e r)
      end
  | START_FIELD => Some (process_start_field e r)
  | IN_FIELD =>
      match e with
      | EOL => Some (parse_save_field START_RECORD r)
      | Ch c =>
          if is_lf c || is_cr c then Some (parse_save_field EAT_CRNL r)
          else if N.eqb c COMMA then Some (parse_save_field START_FIELD r)
          else Some (parse_add_char IN_FIELD c r)
      end
  | IN_QUOTED_FIELD =>
      match e with
      | EOL => Some r
      | Ch c =>
          if N.eqb c QUOTE then Some (set_state QUOTE_IN_QUOTED_FIELD r)
          else Some (parse_add_char IN_QUOTED_FIELD c r)
      end
  | QUOTE_IN_QUOTED_FIELD =>
      match e with
      | EOL => Some (parse_save_field START_RECORD r)
      | Ch c =>
          if N.eqb c QUOTE then Some (parse_add_char IN_QUOTED_FIELD c r)
          else if N.eqb c COMMA then Some (parse_save_field START_FIELD r)
          else if is_lf c || is_cr c then Some (parse_save_field EAT_CRNL r)
          else Some (parse_add_char IN_FIELD c r)
      end
  | EAT_CRNL =>
      match e with
      | EOL => Some (set_state START_RECORD r)
      | Ch c => if is_lf c || is_cr c then Some r else None
      end
  end.

Definition is_start_record (s : state) : bool :=
  match s with START_RECORD => true | _ => false end.

Definition is_in_quoted (s : state) : bool :=
  match s with IN_QUOTED_FIELD => true | _ => false end.

(** [list(csv.reader(f))]: a row is complete when an end of line leaves
    the reader in [START_RECORD]; at the end of the input a pending field
    closes the last row. *)
Fixpoint read_events (r : reader) (rows : list (list str)) (evs : list event)
  : option (list (list str)) :=
  match evs with
  | [] =>
      if truthy (field r) || is_in_quoted (st r)
      then Some (rows ++ [fields (parse_save_field START_RECORD r)])
      else Some rows
  | e :: evs' =>
      match parse_process_char e r with
      | None => None
      | Some r' =>
          match e with
          | EOL =>
              if is_start_record (st r')
              then read_events parse_reset (rows ++ [fields r']) evs'
              else read_events r' rows evs'
          | Ch _ => read_events r' rows evs'
          end
      end
  end.

Definition read_csv (text : str) : option (list (list str)) :=
  read_events parse_reset [] (events text).

End Csv.

Definition fieldnames : list str :=
  [lit "Subject"; lit "Start Date"; lit "Start Time"; lit "End Date";
   lit "End Time"; lit "All Day Event"; lit "Description"; lit "Location";
   lit "Private"].

(** [DictWriter._dict_to_list]: the values in the order of [fieldnames]. *)
Definition dict_to_list (r : MatchRecord) : list str :=
  [Subject r; Start_Date r; Start_Time r; End_Date r; End_Time r;
   All_Day_Event r; Description r; Location r; Private r].

(** [write_csv(rows, out_path)]: the text written to [out_path]. *)
Definition write_csv (rows : list MatchRecord) : str :=
  Csv.writerow fieldnames ++ concat (map (fun r => Csv.writerow (dict_to_list r)) rows).


(** A code point UTF-8 does not encode: a surrogate. *)
Definition is_surrogate (c : char) : bool :=
  (N.leb 55296 c && N.leb c 57343)%N.

Definition encodable (text : str) : bool :=
  forallb (fun c => negb (is_surrogate c)) text.

(** [write_csv(rows, out_path)] as a whole: [open] raises [OSError] when
    the path does not take the file ([writable] tells); writing the text
    raises [UnicodeEncodeError] when it holds a surrogate. The result is
    the content of the file after a write that succeeded; what the file
    holds after an error is not modelled. *)
Definition write_csv_file (writable : str -> bool) (rows : list MatchRecord)
  (out_path : str) : result str :=
  if writable out_path then
    if encodable (write_csv rows) then Ok (write_csv rows)
    else Raise UnicodeEncodeError
  else Raise OSError.

(** [main], after [argparse]: [--duration] is converted by [int], so every
    integer is accepted (zero and negative ones too). After the file is
    written, the closing [print] of a message with a check mark and an
    arrow raises [UnicodeEncodeError] when the encoding of the standard
    output lacks them ([printable] tells). The result is the content of
    the file at the output path after a run without error. *)
Definition main (http_get : str -> option str)
  (parse_html : str -> option node)
  (urljoin : str -> str -> option str) (writable : str -> bool)
  (printable : bool)
  (url out : str) (duration : Z) (no_enrich : bool) : result str :=
  rows <- parse_team_portrait http_get parse_html urljoin url duration
            (negb no_enrich) ;;
  text <- write_csv_file writable rows out ;;
  if printable then Ok text else Raise UnicodeEncodeError.

(** ** Vocabulary of the properties *)

(** A string without white space; a word is a non-empty one. *)
Definition nospace (w : str) : Prop :=
  forallb (fun c => negb (is_space c)) w = true.

Definition word (w : str) : Prop := w <> [] /\ nospace w.

(** The first match of a pattern in a list of words. *)
Fixpoint first_match {G : Type} (at_ : str -> option G) (ws : list str)
  : option G :=
  match ws with
  | [] => None
  | w :: ws' =>
      match re_search at_ w with
      | Some g => Some g
      | None => first_match at_ ws'
      end
  end.

(** ** Example inputs *)

Definition td (kids : list node) : node := Elem (lit "td") [] kids.

Definition link (href : string) (kids : list node) : node :=
  Elem (lit "a") [(lit "href", lit href)] kids.

(** The row of the specification's scenario. *)
Definition scenario_row : list node :=
  [td [Text (lit "Fr")]; td [Text (lit "03.10.2025")];
   td [Text (lit "19:30 Uhr")]; td [link "/halle/TU" [Text (lit "TU")]];
   td [Text (lit "12")]; td [Text (lit "Team A")]; td [Text (lit "Team B")];
   td [Text (lit "3:1")]].

(** The same row with another date cell and time cell. *)
Definition row_with (date time : string) : list node :=
  [td [Text (lit "Fr")]; td [Text (lit date)]; td [Text (lit time)];
   td [link "/halle/TU" [Text (lit "TU")]];
   td [Text (lit "12")]; td [Text (lit "Team A")]; td [Text (lit "Team B")];
   td [Text (lit "3:1")]].

(** An environment without network: every request fails. *)
Definition offline (u : str) : option str := None.
Definition empty_doc : node := Elem (lit "[document]") [] [].
Definition empty_page (html : str) : option node := Some empty_doc.
Definition plain_join (base u : str) : option str := Some (base ++ u).

(** The record of [row_with "03.10.2025" "abends"] at duration 90. *)
Definition midnight_record : MatchRecord := {|
  Subject := lit "Team A vs. Team B";
  Start_Date := lit "10/03/2025";
  Start_Time := lit "00:00";
  End_Date := lit "10/03/2025";
  End_Time := lit "01:30";
  All_Day_Event := lit "False";
  Description := lit "Spiel Nr.: 12 | Ergebnis: 3:1";
  Location := lit "TU";
  Private := lit "False"
|}.

(** ** One Gregorian cycle, checked day by day *)

(** Day [r + 1] of the first 400 years: [ord2ymd] gives a date of those
    years that exists and that [ymd2ord] maps back to [r + 1]; the last
    366 days of the cycle are its year 400. *)
Definition cycle_ok (r : Z) : bool :=
  let '(y, m, d) := ord2ymd (r + 1) in
  (ymd2ord y m d =? r + 1)
  && (1 <=? y) && (y <=? 400) && (1 <=? m) && (m <=? 12)
  && (1 <=? d) && (d <=? days_in_month y m)
  && ((DI400Y - 366 <=? r) || (y <=? 399)).

(** [cycle_ok] on the [n] days from [r] on. *)
Fixpoint cycle_ok_from (n : nat) (r : Z) : bool :=
  match n with
  | O => true
  | S k => cycle_ok r && cycle_ok_from k (r + 1)
  end.

(** The scenario row with another weekday cell and a ninth cell. *)
Definition scenario_row_variant : list node :=
  [td [Text (lit "Sa")]; td [Text (lit "03.10.2025")];
   td [Text (lit "19:30 Uhr")]; td [link "/halle/TU" [Text (lit "TU")]];
   td [Text (lit "12")]; td [Text (lit "Team A")]; td [Text (lit "Team B")];
   td [Text (lit "3:1")]; td [Text (lit "Bericht")]].

(** The start of the scenario row. *)
Definition scenario_start : datetime := Datetime.mk 2025 10 3 19 30.

(** The record of the scenario row at duration 0. *)
Definition zero_record : MatchRecord := {|
  Subject := lit "Team A vs. Team B";
  Start_Date := lit "10/03/2025";
  Start_Time := lit "19:30";
  End_Date := lit "10/03/2025";
  End_Time := lit "19:30";
  All_Day_Event := lit "False";
  Description := lit "Spiel Nr.: 12 | Ergebnis: 3:1";
  Location := lit "TU";
  Private := lit "False"
|}.

(** The record of the scenario row at duration 90. *)
Definition scenario_record : MatchRecord := {|
  Subject := lit "Team A vs. Team B";
  Start_Date := lit "10/03/2025";
  Start_Time := lit "19:30";
  End_Date := lit "10/03/2025";
  End_Time := lit "21:00";
  All_Day_Event := lit "False";
  Description := lit "Spiel Nr.: 12 | Ergebnis: 3:1";
  Location := lit "TU";
  Private := lit "False"
|}.

(** ** The venue page, in the words of the properties *)

(** A heading [h1] to [h4] whose text contains the marker. *)
Definition is_marker_heading (t : node) : bool :=
  is_h1_4 (name_of t) && contains (lit "Hallenadresse") (get_text [] false t).

Definition no_marker_heading (page : node) : bool :=
  forallb (fun t => negb (is_marker_heading t)) (descendant_tags page).

(** A paragraph, division or address element. *)
Definition is_block (t : node) : bool :=
  existsb (str_eqb (name_of t)) [lit "p"; lit "div"; lit "address"].

(** The tags up to the first that satisfies [stop]. *)
Fixpoint take_until (stop : node -> bool) (sibs : list node) : list node :=
  match sibs with
  | [] => []
  | s :: rest => if stop s then [] else s :: take_until stop rest
  end.

(** The non-empty normalised texts of the block-level tags of a list. *)
Definition block_texts (sibs : list node) : list str :=
  filter truthy (map (fun t => norm (get_text [SP] true t)) (filter is_block sibs)).

(** What the code collects after the marker heading: blocks up to the
    next heading [h1] to [h4] of any level, three at most. *)
Definition blocks_until_any_heading (sibs : list node) : list str :=
  firstn 3 (block_texts (take_until (fun t => is_h1_4 (name_of t)) sibs)).

(** The level of a heading [h1] to [h4], 0 for any other tag. *)
Definition heading_level (t : node) : N :=
  match name_of t with
  | h :: d :: _ => if is_h1_4 (name_of t) then (d - 48)%N else 0%N
  | _ => 0%N
  end.

(** The claim's reading: blocks up to the next heading of equal or
    higher level than the marker heading (a smaller or equal number). *)
Definition blocks_until_same_or_higher (marker : node) (sibs : list node)
  : list str :=
  firstn 3 (block_texts
    (take_until (fun t => is_h1_4 (name_of t)
                          && N.leb (heading_level t) (heading_level marker))
                sibs)).

Definition elem (nm : string) (kids : list node) : node := Elem (lit nm) [] kids.

(** A venue page whose marker heading [h1] is followed by a lower heading
    [h2] and then by the address. *)
Definition hall_page_subheading : node :=
  elem "[document]"
    [elem "h1" [Text (lit "Hallenadresse")];
     elem "h2" [Text (lit "Anfahrt")];
     elem "p" [Text (lit "Musterstr. 1")]].

(** A venue page with four address blocks after the marker heading. *)
Definition hall_page_blocks : node :=
  elem "[document]"
    [elem "h3" [Text (lit "Hallenadresse")];
     elem "p" [Text (lit "Sporthalle")];
     elem "span" [Text (lit "Plan")];
     elem "p" [Text (lit "Musterstr. 1")];
     elem "address" [Text (lit "13353 Berlin")];
     elem "p" [Text (lit "Tel. 030")]].

(** A venue cell whose link text is split by markup. *)
Definition split_link_cell : node :=
  td [link "/halle/TU" [Text (lit "T"); elem "b" [Text (lit "U")]]].

(** A network that answers every request, and a parser that reads every
    answer as a page without headings. *)
Definition online (u : str) : option str := Some (lit "<html></html>").

(** A team page with one schedule table holding the scenario row. *)
Definition team_page : node :=
  elem "[document]"
    [elem "h2" [Text (lit "Spieltermine Vorrunde")];
     elem "table" [elem "tr" scenario_row]].
Definition team_page_parser (html : str) : option node := Some team_page.

(** ** The csv reader, in the words of the properties *)

(** The states in which the reader starts a field. *)
Definition fresh_state (s : Csv.state) : Prop :=
  s = Csv.START_RECORD \/ s = Csv.START_FIELD.

(** A row of two fields or more. *)
Definition wide (fs : list str) : Prop := (2 <= length fs)%nat.

(** ** Vocabulary of the further properties *)

(** A string whose only white space is the plain space: no line break,
    tab or no-break space. *)
Definition single_spaced (f : str) : Prop :=
  forallb (fun c => negb (is_space c) || N.eqb c SP) f = true.

(** The records a table row contributes: one when the row parser emits,
    none when it skips. *)
Definition row_records (http_get : str -> option str)
  (parse_html : str -> option node)
  (urljoin : str -> str -> option str) (url : str) (default_duration : Z)
  (enrich_halls : bool) (tr : node) : list MatchRecord :=
  match parse_row http_get parse_html urljoin url default_duration enrich_halls
          (find_all (lit "td") tr) with
  | Ok (Emit r) => [r]
  | _ => []
  end.

(** A row whose date cell holds a date that does not exist. *)
Definition impossible_date_row : list node := row_with "31.02.2025" "19:30".

(** A venue cell whose link target [urljoin] rejects, and such a
    [urljoin]. *)
Definition strict_join (base u : str) : option str :=
  if contains (lit "[") u then None else Some (base ++ u).
Definition bad_link_cell : node := td [link "//[" [Text (lit "TU")]].

(** A heading [h2] or [h3] whose text contains the schedule marker. *)
Definition is_schedule_heading (h : node) : bool :=
  existsb (str_eqb (name_of h)) [lit "h2"; lit "h3"]
  && contains (lit "Spieltermine") (get_text [] false h).

(** The records of the rows of a list of tables, in document order. *)
Definition table_records (http_get : str -> option str)
  (parse_html : str -> option node)
  (urljoin : str -> str -> option str) (url : str) (default_duration : Z)
  (enrich_halls : bool) (tables : list node) : list MatchRecord :=
  flat_map
    (fun tbl =>
       flat_map
         (row_records http_get parse_html urljoin url default_duration
            enrich_halls)
         (find_all (lit "tr") tbl))
    tables.

(** A network that answers for the team page only. *)
Definition team_only (u : str) : option str :=
  if str_eqb u (lit "team") then Some (lit "<html></html>") else None.

(** A team page whose second row has a date that does not exist. *)
Definition team_page_bad_row : node :=
  elem "[document]"
    [elem "h2" [Text (lit "Spieltermine Vorrunde")];
     elem "table" [elem "tr" scenario_row; elem "tr" impossible_date_row]].
Definition bad_row_parser (html : str) : option node := Some team_page_bad_row.

(** A table row on which the row parser ends without an error. *)
Definition row_ok (http_get : str -> option str)
  (parse_html : str -> option node)
  (urljoin : str -> str -> option str) (url : str) (default_duration : Z)
  (enrich_halls : bool) (tr : node) : Prop :=
  exists o,
    parse_row http_get parse_html urljoin url default_duration enrich_halls
      (find_all (lit "td") tr) = Ok o.

(** ** Example environments for the errors of a run *)

(** A parser that rejects every page. *)
Definition rejecting_parser (html : str) : option node := None.

(** A file system that takes every file, and one that takes none. *)
Definition any_path (p : str) : bool := true.
Definition no_path (p : str) : bool := false.

(** The default output path. *)
Definition default_out : str := lit "team_events.csv".

(** A text that starts with two decimal digits, a dot, two decimal
    digits, a dot and four decimal digits; [d], [m] and [y] are the three
    digit groups. *)
Definition date_shape (suf d m y : str) : Prop :=
  exists d1 d2 m1 m2 y1 y2 y3 y4 rest,
    suf = d1 :: d2 :: DOT :: m1 :: m2 :: DOT :: y1 :: y2 :: y3 :: y4 :: rest
    /\ forallb is_digit [d1; d2; m1; m2; y1; y2; y3; y4] = true
    /\ d = [d1; d2] /\ m = [m1; m2] /\ y = [y1; y2; y3; y4].

(** * Properties *)

(** ** Strings and normalisation *)

Lemma str_eqb_eq a b : str_eqb a b = true <-> a = b.
Proof.
  unfold str_eqb. destruct (list_eq_dec N.eq_dec a b); split; congruence.
Qed.

Lemma str_eqb_refl a : str_eqb a a = true.
Proof. apply str_eqb_eq. reflexivity. Qed.

Lemma nospace_cons c w :
  nospace (c :: w) <-> is_space c = false /\ nospace w.
Proof.
  unfold nospace. simpl. rewrite andb_true_iff, negb_true_iff. tauto.
Qed.

Lemma nospace_app a b : nospace (a ++ b) <-> nospace a /\ nospace b.
Proof.
  unfold nospace. rewrite forallb_app, andb_true_iff. tauto.
Qed.

Lemma nospace_rev w : nospace w -> nospace (rev w).
Proof.
  induction w as [|c w IH]; intros H; simpl; [exact H|].
  apply nospace_cons in H as [Hc Hw].
  apply nospace_app. split; [auto|]. apply nospace_cons. split; [exact Hc|reflexivity].
Qed.

Lemma word_rev w : word w -> word (rev w).
Proof.
  intros [Hne Hns]. split; [|apply nospace_rev; exact Hns].
  intros E. apply Hne. rewrite <- (rev_involutive w), E. reflexivity.
Qed.

Lemma split_go_replace s : forall cur,
  split_go cur (replace_char NBSP SP s) = split_go cur s.
Proof.
  induction s as [|c s IH]; intros cur; simpl; [reflexivity|].
  destruct (N.eqb c NBSP) eqn:E.
  - apply N.eqb_eq in E. subst c. simpl. destruct cur; rewrite IH; reflexivity.
  - destruct (is_space c); [destruct cur|]; rewrite IH; reflexivity.
Qed.

Lemma split_go_words s : forall cur,
  nospace cur -> Forall word (split_go cur s).
Proof.
  induction s as [|c s IH]; intros cur Hcur; simpl.
  - destruct cur as [|x cur]; constructor; [|constructor].
    apply word_rev. split; [discriminate|exact Hcur].
  - destruct (is_space c) eqn:E.
    + destruct cur as [|x cur]; [apply IH; reflexivity|].
      constructor; [|apply IH; reflexivity].
      apply word_rev. split; [discriminate|exact Hcur].
    + apply IH. apply nospace_cons. split; assumption.
Qed.

Lemma split_words s : Forall word (split s).
Proof. apply split_go_words. reflexivity. Qed.

Lemma split_go_nospace w : forall cur s,
  nospace w -> split_go cur (w ++ s) = split_go (rev w ++ cur) s.
Proof.
  induction w as [|c w IH]; intros cur s H; simpl; [reflexivity|].
  apply nospace_cons in H as [Hc Hw]. rewrite Hc, IH by exact Hw.
  rewrite <- app_assoc. reflexivity.
Qed.

Lemma split_go_end w : w <> [] -> split_go (rev w) [] = [w].
Proof.
  intros Hne. simpl. destruct (rev w) eqn:E.
  - exfalso. apply Hne. rewrite <- (rev_involutive w), E. reflexivity.
  - rewrite <- E, rev_involutive. reflexivity.
Qed.

Lemma split_go_space w c s :
  w <> [] -> is_space c = true ->
  split_go (rev w) (c :: s) = w :: split_go [] s.
Proof.
  intros Hne Hc. simpl. rewrite Hc. destruct (rev w) eqn:E.
  - exfalso. apply Hne. rewrite <- (rev_involutive w), E. reflexivity.
  - rewrite <- E, rev_involutive. reflexivity.
Qed.

Lemma join_cons2 sep (w w' : str) ws :
  join sep (w :: w' :: ws) = w ++ sep ++ join sep (w' :: ws).
Proof. reflexivity. Qed.

Lemma split_join ws : Forall word ws -> split (join [SP] ws) = ws.
Proof.
  unfold split. induction 1 as [|w ws [Hne Hns] Hws IH]; [reflexivity|].
  destruct ws as [|w' ws].
  - cbn [join]. rewrite <- (app_nil_r w) at 1.
    rewrite split_go_nospace, app_nil_r by exact Hns.
    apply split_go_end. exact Hne.
  - rewrite join_cons2. rewrite split_go_nospace, app_nil_r by exact Hns.
    cbn [app]. rewrite split_go_space by (exact Hne || reflexivity).
    rewrite IH. reflexivity.
Qed.

Lemma lstrip_word_head c s : is_space c = false -> lstrip (c :: s) = c :: s.
Proof. intros H. simpl. rewrite H. reflexivity. Qed.

Lemma rstrip_nospace_last y c : is_space c = false -> rstrip (y ++ [c]) = y ++ [c].
Proof.
  intros H. unfold rstrip. rewrite rev_app_distr. cbn [rev app].
  rewrite lstrip_word_head by exact H.
  change (c :: rev y) with ([c] ++ rev y).
  rewrite rev_app_distr, rev_involutive. reflexivity.
Qed.

Lemma word_last w : word w -> exists y c, w = y ++ [c] /\ is_space c = false.
Proof.
  intros [Hne Hns]. destruct (exists_last Hne) as (y & c & ->).
  exists y, c. split; [reflexivity|].
  apply nospace_app in Hns as [_ Hc]. apply nospace_cons in Hc. tauto.
Qed.

Lemma join_words_last ws :
  Forall word ws -> ws <> [] ->
  exists y c, join [SP] ws = y ++ [c] /\ is_space c = false.
Proof.
  induction 1 as [|w ws Hw Hws IH]; intros Hne; [congruence|].
  destruct ws as [|w' ws].
  - cbn [join]. apply word_last. exact Hw.
  - destruct IH as (y & c & E & Hc); [discriminate|].
    exists (w ++ [SP] ++ y), c. split; [|exact Hc].
    rewrite join_cons2, E, !app_assoc. reflexivity.
Qed.

Lemma join_words_head ws :
  Forall word ws -> ws <> [] ->
  exists c s, join [SP] ws = c :: s /\ is_space c = false.
Proof.
  intros H Hne. destruct H as [|w ws [Hw Hns] Hws]; [congruence|].
  destruct w as [|c w]; [congruence|].
  apply nospace_cons in Hns as [Hc _].
  destruct ws as [|w' ws].
  - exists c, w. split; [reflexivity|exact Hc].
  - exists c, (w ++ [SP] ++ join [SP] (w' :: ws)). split; [reflexivity|exact Hc].
Qed.

Lemma strip_join ws : Forall word ws -> strip (join [SP] ws) = join [SP] ws.
Proof.
  intros H. destruct ws as [|w ws]; [reflexivity|].
  unfold strip.
  destruct (join_words_head _ H) as (c & s & E & Hc); [discriminate|].
  rewrite E, lstrip_word_head by exact Hc. rewrite <- E.
  destruct (join_words_last _ H) as (y & c' & E' & Hc'); [discriminate|].
  rewrite E'. apply rstrip_nospace_last. exact Hc'.
Qed.

(** [norm] is the words of the text joined by single spaces. *)
Lemma norm_split s : norm s = join [SP] (split s).
Proof.
  unfold norm. 
  assert (E : or_str (Some s) [] = s) by (destruct s; reflexivity).
  rewrite E. unfold split at 1. rewrite split_go_replace.
  apply strip_join. apply split_words.
Qed.

Lemma split_norm s : split (norm s) = split s.
Proof. rewrite norm_split. apply split_join, split_words. Qed.

Lemma norm_idempotent s : norm (norm s) = norm s.
Proof. rewrite (norm_split (norm s)), split_norm, <- norm_split. reflexivity. Qed.

(** *** A pattern that cannot match across white space finds in the
    normalised text what it finds in the text. *)

Section SearchWords.

Context {G : Type} (at_ : str -> option G).
Hypothesis at_nil : at_ [] = None.
Hypothesis at_space :
  forall a c b, is_space c = true -> at_ (a ++ c :: b) = at_ a.

Lemma re_search_app_space a c b :
  is_space c = true ->
  re_search at_ (a ++ c :: b) =
  match re_search at_ a with
  | Some g => Some g
  | None => re_search at_ b
  end.
Proof.
  intros Hc. induction a as [|x a IH].
  - cbn [app re_search]. pose proof (at_space [] c b Hc) as E. cbn [app] in E.
    rewrite E, at_nil. reflexivity.
  - change ((x :: a) ++ c :: b) with (x :: (a ++ c :: b)).
    cbn [re_search].
    change (x :: (a ++ c :: b)) with ((x :: a) ++ c :: b).
    rewrite (at_space (x :: a) c b Hc).
    destruct (at_ (x :: a)); [reflexivity|exact IH].
Qed.

Lemma re_search_split_go s : forall cur,
  re_search at_ (rev cur ++ s) = first_match at_ (split_go cur s).
Proof.
  induction s as [|c s IH]; intros cur.
  - rewrite app_nil_r. simpl. destruct cur as [|x cur].
    + simpl. rewrite at_nil. reflexivity.
    + cbn [first_match]. destruct (re_search at_ (rev (x :: cur))); reflexivity.
  - cbn [split_go]. destruct (is_space c) eqn:Hc.
    + rewrite re_search_app_space by exact Hc.
      specialize (IH []). cbn [rev app] in IH.
      destruct cur as [|x cur].
      * simpl. rewrite at_nil. exact IH.
      * cbn [first_match]. rewrite IH. reflexivity.
    + rewrite <- IH. cbn [rev]. rewrite <- app_assoc. reflexivity.
Qed.

Lemma re_search_words s : re_search at_ s = first_match at_ (split s).
Proof. apply (re_search_split_go s []). Qed.

Lemma re_search_norm s : re_search at_ (norm s) = re_search at_ s.
Proof. rewrite !re_search_words, split_norm. reflexivity. Qed.

End SearchWords.

(** ** Digits and the patterns *)

Lemma is_space_cases c :
  is_space c = true ->
  In c [9; 10; 11; 12; 13; 28; 29; 30; 31; 32; 133; 160; 5760;
        8192; 8193; 8194; 8195; 8196; 8197; 8198; 8199; 8200; 8201; 8202;
        8232; 8233; 8239; 8287; 12288]%N.
Proof.
  unfold is_space. intros H. apply existsb_exists in H as (x & Hin & E).
  apply N.eqb_eq in E. subst x. exact Hin.
Qed.

Ltac space_cases H :=
  apply is_space_cases in H; cbn [In] in H;
  repeat (destruct H as [H|H]; [subst; reflexivity|]); destruct H.

Lemma space_not_digit c : is_space c = true -> is_digit c = false.
Proof. intros H. space_cases H. Qed.

Lemma space_not_dot c : is_space c = true -> N.eqb c DOT = false.
Proof. intros H. space_cases H. Qed.

Lemma space_not_colon c : is_space c = true -> N.eqb c COLON = false.
Proof. intros H. space_cases H. Qed.

Lemma digit_not_space c : is_digit c = true -> is_space c = false.
Proof.
  intros H. destruct (is_space c) eqn:E; [|reflexivity].
  apply space_not_digit in E. congruence.
Qed.

Lemma digit_in_range zs c d : digit_in zs c = Some d -> 0 <= d <= 9.
Proof.
  induction zs as [|z zs IH]; simpl; [discriminate|].
  destruct (N.leb z c && N.ltb c (z + 10))%N eqn:E; [|exact IH].
  apply andb_true_iff in E as [E1 E2].
  apply N.leb_le in E1. apply N.ltb_lt in E2.
  intros [= <-]. lia.
Qed.

Lemma digit_value_range c d : digit_value c = Some d -> 0 <= d <= 9.
Proof. apply digit_in_range. Qed.

Lemma py_int_2 a b : 0 <= py_int [a; b] <= 99.
Proof.
  unfold py_int. cbn [fold_left].
  destruct (digit_value a) eqn:Ea; destruct (digit_value b) eqn:Eb;
    repeat match goal with
           | H : digit_value _ = Some _ |- _ => apply digit_value_range in H
           end; lia.
Qed.

Lemma py_int_4 a b c d : 0 <= py_int [a; b; c; d] <= 9999.
Proof.
  unfold py_int. cbn [fold_left].
  destruct (digit_value a) eqn:Ea; destruct (digit_value b) eqn:Eb;
  destruct (digit_value c) eqn:Ec; destruct (digit_value d) eqn:Ed;
    repeat match goal with
           | H : digit_value _ = Some _ |- _ => apply digit_value_range in H
           end; lia.
Qed.

(** What a match of [DATE_RE] at the head of a string looks like. *)
Lemma DATE_RE_at_inv s d m y :
  DATE_RE_at s = Some (d, m, y) ->
  exists d1 d2 m1 m2 y1 y2 y3 y4 rest,
    s = d1 :: d2 :: DOT :: m1 :: m2 :: DOT :: y1 :: y2 :: y3 :: y4 :: rest
    /\ d = [d1; d2] /\ m = [m1; m2] /\ y = [y1; y2; y3; y4]
    /\ forallb is_digit [d1; d2; m1; m2; y1; y2; y3; y4] = true.
Proof.
  unfold DATE_RE_at.
  destruct s as [|d1 [|d2 [|p1 [|m1 [|m2 [|p2 [|y1 [|y2 [|y3 [|y4 rest]]]]]]]]]];
    try discriminate.
  destruct (forallb is_digit [d1; d2; m1; m2; y1; y2; y3; y4]) eqn:Hd;
    [|discriminate].
  destruct (N.eqb p1 DOT) eqn:E1; [|discriminate].
  destruct (N.eqb p2 DOT) eqn:E2; [|discriminate].
  apply N.eqb_eq in E1, E2. subst p1 p2. cbn [andb]. intros [= <- <- <-].
  exists d1, d2, m1, m2, y1, y2, y3, y4, rest. repeat split; exact Hd.
Qed.

Lemma DATE_RE_at_nospace s g : DATE_RE_at s = Some g -> nospace (firstn 10 s).
Proof.
  destruct g as [[d m] y]. intros H.
  apply DATE_RE_at_inv in H
    as (d1 & d2 & m1 & m2 & y1 & y2 & y3 & y4 & rest & -> & _ & _ & _ & Hd).
  cbn [forallb] in Hd.
  repeat (apply andb_true_iff in Hd as [?%digit_not_space Hd]).
  cbn [firstn]. unfold nospace. cbn [forallb].
  repeat match goal with H : is_space _ = false |- _ => rewrite H; clear H end.
  reflexivity.
Qed.

Ltac nospace_contra E Hc :=
  repeat match type of E with
         | nospace (_ :: _) =>
             let H := fresh in apply nospace_cons in E as [H E]; try congruence
         end.

Lemma DATE_RE_at_space a c b :
  is_space c = true -> DATE_RE_at (a ++ c :: b) = DATE_RE_at a.
Proof.
  intros Hc.
  do 10 (destruct a as [|? a];
         [ cbn [app];
           match goal with
           | |- ?l = _ =>
               destruct l eqn:E; [|reflexivity];
               apply DATE_RE_at_nospace in E; cbn [firstn] in E;
               exfalso; nospace_contra E Hc
           end
         | ]).
  reflexivity.
Qed.

Lemma DATE_RE_search_norm s : DATE_RE_search (norm s) = DATE_RE_search s.
Proof. apply re_search_norm; [reflexivity|apply DATE_RE_at_space]. Qed.

Lemma TIME_RE_at_space a c b :
  is_space c = true -> TIME_RE_at (a ++ c :: b) = TIME_RE_at a.
Proof.
  intros Hc.
  pose proof (space_not_digit c Hc) as Hd.
  pose proof (space_not_colon c Hc) as Hk.
  destruct a as [|x1 [|x2 [|x3 [|x4 [|x5 a]]]]]; cbn [app]; [| | | | |reflexivity];
    unfold TIME_RE_at; destruct b as [|b1 [|b2 [|b3 [|b4 b]]]]; cbn [forallb];
    rewrite ?Hd, ?Hk, ?andb_false_r, ?andb_false_l; cbn [andb];
    try reflexivity;
    repeat match goal with
           | |- context [is_digit ?x] => destruct (is_digit x); cbn [andb]
           | |- context [N.eqb ?x COLON] => destruct (N.eqb x COLON); cbn [andb]
           end; try reflexivity.
Qed.

Lemma TIME_RE_search_norm s : TIME_RE_search (norm s) = TIME_RE_search s.
Proof. apply re_search_norm; [reflexivity|apply TIME_RE_at_space]. Qed.

(** The leftmost-match reading of [re_search]. *)
Lemma re_search_leftmost {G} (at_ : str -> option G) s g :
  re_search at_ s = Some g <->
  exists pre suf,
    s = pre ++ suf /\ at_ suf = Some g /\
    forall pre' suf', s = pre' ++ suf' -> (length pre' < length pre)%nat ->
                      at_ suf' = None.
Proof.
  induction s as [|c s IH].
  - cbn [re_search]. split.
    + intros H. exists [], []. repeat split.
      * destruct (at_ []); congruence.
      * intros ? ? _ Hl. simpl in Hl. lia.
    + intros (pre & suf & E & H & _).
      symmetry in E. apply app_eq_nil in E as [-> ->]. rewrite H. reflexivity.
  - cbn [re_search]. destruct (at_ (c :: s)) eqn:Hat.
    + split.
      * intros [= <-]. exists [], (c :: s). repeat split; [exact Hat|].
        intros ? ? _ Hl. simpl in Hl. lia.
      * intros (pre & suf & E & H & Hmin).
        destruct pre as [|x pre]; [cbn [app] in E; subst suf; congruence|].
        specialize (Hmin [] (c :: s) eq_refl). cbn [length] in Hmin.
        rewrite Hmin in Hat by lia. discriminate.
    + rewrite IH. split.
      * intros (pre & suf & -> & H & Hmin). exists (c :: pre), suf.
        repeat split; [exact H|]. intros pre' suf' E Hl.
        destruct pre' as [|x pre']; [cbn [app] in E; subst suf'; exact Hat|].
        injection E as <- E. apply (Hmin pre' suf' E). cbn [length] in Hl. lia.
      * intros (pre & suf & E & H & Hmin).
        destruct pre as [|x pre]; [cbn [app] in E; subst suf; congruence|].
        injection E as <- E. exists pre, suf. repeat split; [exact E|exact H|].
        intros pre' suf' E' Hl. apply (Hmin (c :: pre') suf').
        { rewrite E'. reflexivity. } cbn [length]. lia.
Qed.

(** ** The datetime resolver *)

(** [parse_datetime] in terms of the texts as given: normalising them
    does not change what the two patterns find. *)
Lemma parse_datetime_eq date_text time_text :
  parse_datetime date_text time_text =
  match DATE_RE_search date_text with
  | None => Ok None
  | Some (d, m, y) =>
      let '(hh, mm) :=
        match TIME_RE_search (or_str time_text []) with
        | Some (h, mi) => (py_int h, py_int mi)
        | None => (0, 0)
        end in
      t <- Datetime.make (py_int y) (py_int m) (py_int d) hh mm ;; Ok (Some t)
  end.
Proof.
  unfold parse_datetime. rewrite DATE_RE_search_norm, TIME_RE_search_norm.
  destruct (DATE_RE_search date_text) as [[[d m] y]|]; reflexivity.
Qed.

Lemma make_inv y m d hh mm t :
  Datetime.make y m d hh mm = Ok t ->
  t = Datetime.mk y m d hh mm /\ valid_fields y m d hh mm = true.
Proof.
  unfold Datetime.make. destruct (valid_fields y m d hh mm); [|discriminate].
  intros [= <-]. split; reflexivity.
Qed.

(** ** The row parser *)

Section RowParser.

Variable http_get : str -> option str.
Variable parse_html : str -> option node.
Variable urljoin : str -> str -> option str.
Variable url : str.
Variable default_duration : Z.
Variable enrich_halls : bool.

Let row := parse_row http_get parse_html urljoin url default_duration enrich_halls.

(** What an emitted record was made of. *)
Lemma parse_row_emit_inv tds r :
  row tds = Ok (Emit r) ->
  (7 <= length tds)%nat /\
  exists g start_dt end_dt location,
    DATE_RE_search (cell_text (item tds 1)) = Some g /\
    parse_datetime (cell_text (item tds 1))
      (Some (or_str (Some (cell_text (item tds 2))) (lit "19:30")))
      = Ok (Some start_dt) /\
    add_minutes start_dt default_duration = Ok end_dt /\
    (if enrich_halls
     then hall_address_from_cell http_get parse_html urljoin (item tds 3) url
     else Ok (norm (get_text [SP] true (item tds 3)))) = Ok location /\
    Subject r = cell_text (item tds 5) ++ lit " vs. " ++ cell_text (item tds 6) /\
    Start_Date r = fmt_date start_dt /\ Start_Time r = fmt_time start_dt /\
    End_Date r = fmt_date end_dt /\ End_Time r = fmt_time end_dt /\
    Location r = location /\
    All_Day_Event r = lit "False" /\ Private r = lit "False".
Proof.
  subst row. unfold parse_row.
  destruct (length tds <? 7)%nat eqn:Hlen; [discriminate|].
  apply Nat.ltb_ge in Hlen.
  assert (H5 : (5 <=? length tds)%nat = true) by (apply Nat.leb_le; lia).
  assert (H6 : (6 <=? length tds)%nat = true) by (apply Nat.leb_le; lia).
  assert (H7 : (7 <=? length tds)%nat = true) by (apply Nat.leb_le; lia).
  rewrite H5, H6, H7.
  destruct (DATE_RE_search (cell_text (item tds 1))) as [g|] eqn:Hg; [|discriminate].
  destruct (parse_datetime _ _) as [[start_dt|]|e] eqn:Hp; cbn [bind]; try discriminate.
  destruct (add_minutes start_dt default_duration) as [end_dt|e] eqn:Ha;
    cbn [bind]; [|discriminate].
  match goal with
  | |- bind ?l _ = _ -> _ => destruct l as [location|e] eqn:Hl
  end; cbn [bind]; [|discriminate].
  intros [= <-]. split; [exact Hlen|].
  exists g, start_dt, end_dt, location. cbn. repeat split; assumption || reflexivity.
Qed.

Lemma parse_row_short tds : (length tds < 7)%nat -> row tds = Ok Skip.
Proof.
  intros H. subst row. unfold parse_row.
  apply Nat.ltb_lt in H. rewrite H. reflexivity.
Qed.

Lemma parse_row_no_date tds :
  DATE_RE_search (cell_text (item tds 1)) = None -> row tds = Ok Skip.
Proof.
  intros H. subst row. unfold parse_row. rewrite H.
  destruct (length tds <? 7)%nat; reflexivity.
Qed.

End RowParser.

(** ** Claims about the row parser and the datetime resolver *)

(** C1: the scenario row [Fr | 03.10.2025 | 19:30 Uhr | link TU | 12 |
    Team A | Team B | 3:1], parsed with duration 90 and enrichment
    disabled, is emitted as the record with Subject "Team A vs. Team B",
    Start Date "10/03/2025", Start Time "19:30", End Date "10/03/2025",
    End Time "21:00", Description "Spiel Nr.: 12 | Ergebnis: 3:1" and
    Location "TU" (and "False" in the two constant columns), whatever the
    network and the page address are. *)
Theorem C1_scenario_record :
  forall http_get parse_html urljoin url,
    parse_row http_get parse_html urljoin url 90 false scenario_row =
    Ok (Emit {|
      Subject := lit "Team A vs. Team B";
      Start_Date := lit "10/03/2025";
      Start_Time := lit "19:30";
      End_Date := lit "10/03/2025";
      End_Time := lit "21:00";
      All_Day_Event := lit "False";
      Description := lit "Spiel Nr.: 12 | Ergebnis: 3:1";
      Location := lit "TU";
      Private := lit "False"
    |}).
Proof. intros. vm_compute. reflexivity. Qed.

(** C2: the row parser emits a record only for a row with at least 7
    cells whose date cell (index 1) contains the day.month.year pattern; a
    row with fewer than 7 cells, or whose date cell has no such pattern, is
    skipped without a record and without an error, whatever the other
    cells hold. *)
Theorem C2_record_only_past_the_gate :
  forall http_get parse_html urljoin url default_duration enrich_halls tds,
    let row :=
      parse_row http_get parse_html urljoin url default_duration enrich_halls in
    (forall r, row tds = Ok (Emit r) ->
       (7 <= length tds)%nat /\
       exists g, DATE_RE_search (cell_text (item tds 1)) = Some g) /\
    ((length tds < 7)%nat -> row tds = Ok Skip) /\
    (DATE_RE_search (cell_text (item tds 1)) = None -> row tds = Ok Skip).
Proof.
  intros. subst row. split; [|split].
  - intros r H. apply parse_row_emit_inv in H as (Hlen & g & _ & _ & _ & Hg & _).
    split; [exact Hlen|]. exists g. exact Hg.
  - apply parse_row_short.
  - apply parse_row_no_date.
Qed.

(** C3, as the code has it: when the date text has no DD.MM.YYYY pattern
    match, [parse_datetime] returns no value; when it has one, the
    leftmost match supplies day, month and year, the leftmost H(H):MM
    match of the time text supplies hour and minute (0:00 without one),
    and the result is the timestamp with exactly these fields if they
    denote an existing calendar date and time of day, and a [ValueError]
    otherwise. *)
Theorem C3_parse_datetime_resolves :
  forall date_text time_text,
    match DATE_RE_search date_text with
    | None => parse_datetime date_text time_text = Ok None
    | Some (d, m, y) =>
        let '(hh, mm) :=
          match TIME_RE_search (or_str time_text []) with
          | Some (h, mi) => (py_int h, py_int mi)
          | None => (0, 0)
          end in
        if valid_fields (py_int y) (py_int m) (py_int d) hh mm
        then exists t,
               parse_datetime date_text time_text = Ok (Some t)
               /\ day t = py_int d /\ month t = py_int m /\ year t = py_int y
               /\ hour t = hh /\ minute t = mm
        else parse_datetime date_text time_text = Raise ValueError
    end.
Proof.
  intros. rewrite parse_datetime_eq.
  destruct (DATE_RE_search date_text) as [[[d m] y]|]; [|reflexivity].
  destruct (TIME_RE_search (or_str time_text [])) as [[h mi]|];
    unfold Datetime.make;
    match goal with
    | |- context [valid_fields ?a ?b ?c ?e ?f] =>
        destruct (valid_fields a b c e f)
    end; cbn [bind]; try reflexivity;
    eexists; repeat split.
Qed.

(** C3, as the claim states it, fails: a date text with a valid
    DD.MM.YYYY substring and a time text with an hour out of range give no
    timestamp, and a date text whose only pattern match is not a calendar
    date gives an error, not absence. *)
Lemma C3_counterexample :
  parse_datetime (lit "03.10.2025") (Some (lit "24:00")) = Raise ValueError
  /\ parse_datetime (lit "31.02.2025") (Some (lit "19:30")) = Raise ValueError.
Proof. split; vm_compute; reflexivity. Qed.

(** C4: for an emitted record, the start time is 19:30 when the
    normalised time cell is empty; when the cell is not empty, the default
    plays no part: the start time is 00:00 if the cell has no H(H):MM
    match, and the matched hour and minute otherwise. *)
Theorem C4_time_default_only_when_empty :
  forall http_get parse_html urljoin url default_duration enrich_halls tds r,
    parse_row http_get parse_html urljoin url default_duration enrich_halls tds
      = Ok (Emit r) ->
    let time_txt := cell_text (item tds 2) in
    (time_txt = [] -> Start_Time r = lit "19:30") /\
    (time_txt <> [] ->
       match TIME_RE_search time_txt with
       | None => Start_Time r = lit "00:00"
       | Some (h, mi) =>
           Start_Time r = pad2 (py_int h) ++ [COLON] ++ pad2 (py_int mi)
       end).
Proof.
  intros * H time_txt.
  apply parse_row_emit_inv in H
    as (_ & g & start_dt & end_dt & loc & _ & Hp & _ & _ & _ & _ & Hst & _).
  fold time_txt in Hp. rewrite Hst. clear Hst.
  rewrite parse_datetime_eq in Hp.
  destruct (DATE_RE_search _) as [[[d m] y]|]; [|discriminate].
  split.
  - intros E. rewrite E in Hp.
    change (TIME_RE_search (or_str (Some (or_str (Some []) (lit "19:30"))) []))
      with (Some (lit "19", lit "30")) in Hp.
    cbv beta iota in Hp.
    destruct (Datetime.make _ _ _ _ _) as [t|] eqn:Hm; [|discriminate].
    apply make_inv in Hm as [-> _]. injection Hp as <-. reflexivity.
  - intros Hne.
    assert (E : or_str (Some (or_str (Some time_txt) (lit "19:30"))) [] = time_txt).
    { destruct time_txt; [congruence|reflexivity]. }
    rewrite E in Hp.
    destruct (TIME_RE_search time_txt) as [[h mi]|];
      destruct (Datetime.make _ _ _ _ _) as [t|] eqn:Hm; try discriminate;
      apply make_inv in Hm as [-> _]; injection Hp as <-; reflexivity.
Qed.

Lemma C4_witness :
  parse_row offline empty_page plain_join [] 90 false
    (row_with "03.10.2025" "abends") = Ok (Emit midnight_record)
  /\ Start_Time midnight_record = lit "00:00".
Proof.
  assert (H : parse_row offline empty_page plain_join [] 90 false
                (row_with "03.10.2025" "abends") = Ok (Emit midnight_record))
    by (vm_compute; reflexivity).
  split; [exact H|].
  destruct (C4_time_default_only_when_empty _ _ _ _ _ _ _ _ H) as [_ Hd].
  apply Hd. vm_compute. discriminate.
Defined.

(** C10: two rows of at least 7 cells each that agree on the cells at
    indices 1 to 7 (present or absent alike at index 7) are parsed to the
    same outcome under the same settings and environment: the weekday cell
    and the cells from index 8 on do not influence the record. *)
Theorem C10_only_cells_1_to_7_matter :
  forall http_get parse_html urljoin url default_duration enrich_halls tds tds',
    (7 <= length tds)%nat -> (7 <= length tds')%nat ->
    (forall i, (1 <= i <= 7)%nat -> nth_error tds i = nth_error tds' i) ->
    parse_row http_get parse_html urljoin url default_duration enrich_halls tds =
    parse_row http_get parse_html urljoin url default_duration enrich_halls tds'.
Proof.
  intros * Hl Hl' Hnth.
  assert (Hitem : forall i, (1 <= i <= 7)%nat -> item tds i = item tds' i).
  { intros i Hi. unfold item. specialize (Hnth i Hi).
    destruct (nth_error tds i) as [x|] eqn:E.
    - rewrite (nth_error_nth _ _ _ E). symmetry in Hnth.
      rewrite (nth_error_nth _ _ _ Hnth). reflexivity.
    - symmetry in Hnth. apply nth_error_None in E, Hnth.
      rewrite !nth_overflow by assumption. reflexivity. }
  assert (H8 : (8 <=? length tds)%nat = (8 <=? length tds')%nat).
  { specialize (Hnth 7%nat ltac:(lia)).
    destruct (8 <=? length tds)%nat eqn:E; symmetry.
    - apply Nat.leb_le in E. apply Nat.leb_le.
      destruct (nth_error tds' 7) eqn:E'.
      + assert (nth_error tds' 7 <> None) as Hs by congruence.
        apply nth_error_Some in Hs. lia.
      + rewrite ?E' in Hnth. apply nth_error_None in Hnth. lia.
    - apply Nat.leb_gt in E. apply Nat.leb_gt.
      assert (En : nth_error tds 7 = None) by (apply nth_error_None; lia).
      rewrite En in Hnth. symmetry in Hnth. apply nth_error_None in Hnth. lia. }
  unfold parse_row.
  replace (length tds <? 7)%nat with false by (symmetry; apply Nat.ltb_ge; lia).
  replace (length tds' <? 7)%nat with false by (symmetry; apply Nat.ltb_ge; lia).
  replace (5 <=? length tds)%nat with true by (symmetry; apply Nat.leb_le; lia).
  replace (5 <=? length tds')%nat with true by (symmetry; apply Nat.leb_le; lia).
  replace (6 <=? length tds)%nat with true by (symmetry; apply Nat.leb_le; lia).
  replace (6 <=? length tds')%nat with true by (symmetry; apply Nat.leb_le; lia).
  replace (7 <=? length tds)%nat with true by (symmetry; apply Nat.leb_le; lia).
  replace (7 <=? length tds')%nat with true by (symmetry; apply Nat.leb_le; lia).
  rewrite H8.
  rewrite !(Hitem 1%nat), !(Hitem 2%nat), !(Hitem 3%nat), !(Hitem 4%nat),
    !(Hitem 5%nat), !(Hitem 6%nat), !(Hitem 7%nat) by lia.
  reflexivity.
Qed.

(** ** The calendar *)

Lemma cycle_ok_from_spec n : forall lo,
  cycle_ok_from n lo = true ->
  forall r, lo <= r < lo + Z.of_nat n -> cycle_ok r = true.
Proof.
  induction n as [|k IH]; intros lo H r Hr; [lia|].
  cbn [cycle_ok_from] in H. apply andb_true_iff in H as [Hk Hb].
  destruct (Z.eq_dec r lo) as [->|Hne]; [exact Hk|].
  apply (IH (lo + 1)); [exact Hb|lia].
Qed.

Lemma cycle_checked : cycle_ok_from (Z.to_nat DI400Y) 0 = true.
Proof. vm_compute. reflexivity. Qed.

Lemma cycle_ok_all r : 0 <= r < DI400Y -> cycle_ok r = true.
Proof.
  intros Hr. apply (cycle_ok_from_spec _ 0 cycle_checked).
  rewrite Z2Nat.id by (unfold DI400Y; lia). lia.
Qed.

Lemma is_leap_shift y q : is_leap (y + 400 * q) = is_leap y.
Proof.
  unfold is_leap.
  replace ((y + 400 * q) mod 4) with (y mod 4)
    by (replace (y + 400 * q) with (y + (100 * q) * 4) by ring;
        rewrite Z_mod_plus_full; reflexivity).
  replace ((y + 400 * q) mod 100) with (y mod 100)
    by (replace (y + 400 * q) with (y + (4 * q) * 100) by ring;
        rewrite Z_mod_plus_full; reflexivity).
  replace ((y + 400 * q) mod 400) with (y mod 400)
    by (replace (y + 400 * q) with (y + q * 400) by ring;
        rewrite Z_mod_plus_full; reflexivity).
  reflexivity.
Qed.

Lemma days_before_year_shift y q :
  days_before_year (y + 400 * q) = days_before_year y + DI400Y * q.
Proof.
  unfold days_before_year, DI400Y. cbv zeta.
  replace ((y + 400 * q - 1) / 4) with ((y - 1) / 4 + 100 * q)
    by (replace (y + 400 * q - 1) with (y - 1 + (100 * q) * 4) by ring;
        rewrite Z.div_add by lia; reflexivity).
  replace ((y + 400 * q - 1) / 100) with ((y - 1) / 100 + 4 * q)
    by (replace (y + 400 * q - 1) with (y - 1 + (4 * q) * 100) by ring;
        rewrite Z.div_add by lia; reflexivity).
  replace ((y + 400 * q - 1) / 400) with ((y - 1) / 400 + q)
    by (replace (y + 400 * q - 1) with (y - 1 + q * 400) by ring;
        rewrite Z.div_add by lia; reflexivity).
  ring.
Qed.

Lemma days_in_month_shift y q m :
  days_in_month (y + 400 * q) m = days_in_month y m.
Proof. unfold days_in_month. rewrite is_leap_shift. reflexivity. Qed.

Lemma ymd2ord_shift y q m d :
  ymd2ord (y + 400 * q) m d = ymd2ord y m d + DI400Y * q.
Proof.
  unfold ymd2ord, days_before_month.
  rewrite days_before_year_shift, is_leap_shift. ring.
Qed.

(** [ord2ymd] on any day is [ord2ymd] on the day of the first cycle with
    the same position, moved by whole cycles of 400 years. *)
Lemma ord2ymd_shift n :
  ord2ymd n =
  let '(y, m, d) := ord2ymd ((n - 1) mod DI400Y + 1) in
  (y + 400 * ((n - 1) / DI400Y), m, d).
Proof.
  assert (Hr : 0 <= (n - 1) mod DI400Y < DI400Y)
    by (apply Z.mod_pos_bound; reflexivity).
  unfold ord2ymd. cbv zeta.
  replace ((n - 1) mod DI400Y + 1 - 1) with ((n - 1) mod DI400Y) by ring.
  rewrite (Z.div_small ((n - 1) mod DI400Y) DI400Y) by exact Hr.
  rewrite (Z.mod_small ((n - 1) mod DI400Y) DI400Y) by exact Hr.
  repeat match goal with
         | |- context [if ?b then _ else _] => destruct b
         end; f_equal; f_equal; ring.
Qed.

(** [ymd2ord] undoes [ord2ymd], and [ord2ymd] gives a date that exists. *)
Lemma ord2ymd_sound n :
  1 <= n ->
  let '(y, m, d) := ord2ymd n in
  ymd2ord y m d = n /\ 1 <= m <= 12 /\ 1 <= d <= days_in_month y m
  /\ 1 <= y /\ (n <= MAXORDINAL -> y <= 9999).
Proof.
  intros Hn.
  assert (Hr : 0 <= (n - 1) mod DI400Y < DI400Y)
    by (apply Z.mod_pos_bound; reflexivity).
  assert (Hq : 0 <= (n - 1) / DI400Y) by (apply Z.div_pos; unfold DI400Y; lia).
  pose proof (Z.div_mod (n - 1) DI400Y ltac:(discriminate)) as Hdm.
  rewrite ord2ymd_shift.
  pose proof (cycle_ok_all _ Hr) as Hc. unfold cycle_ok in Hc.
  destruct (ord2ymd ((n - 1) mod DI400Y + 1)) as [[y m] d].
  repeat (apply andb_true_iff in Hc as [Hc ?]).
  repeat match goal with
         | H : (_ <=? _) = true |- _ => apply Z.leb_le in H
         | H : (_ =? _) = true |- _ => apply Z.eqb_eq in H
         end.
  rewrite ymd2ord_shift, days_in_month_shift.
  repeat split; try lia.
  intros Hmax. unfold MAXORDINAL in Hmax. unfold DI400Y in *.
  assert ((n - 1) / 146097 <= 24).
  { apply Z.lt_succ_r. apply Z.div_lt_upper_bound; lia. }
  assert (Hy : (n - 1) / 146097 < 24 \/ (n - 1) / 146097 = 24) by lia.
  destruct Hy as [Hy|Hy]; [lia|].
  match goal with
  | H : (_ || _) = true |- _ => apply orb_true_iff in H as [H|H]
  end;
    repeat match goal with
           | H : (_ <=? _) = true |- _ => apply Z.leb_le in H
           end; lia.
Qed.

Lemma days_before_year_step y :
  days_before_year (y + 1) =
  days_before_year y + 365 + (if is_leap y then 1 else 0).
Proof.
  unfold days_before_year, is_leap. cbv zeta.
  replace (y + 1 - 1) with y by ring.
  destruct (y mod 4 =? 0) eqn:E4; destruct (y mod 100 =? 0) eqn:E100;
    destruct (y mod 400 =? 0) eqn:E400; cbn [andb orb negb];
    repeat match goal with
           | H : (_ =? _) = true |- _ => apply Z.eqb_eq in H
           | H : (_ =? _) = false |- _ => apply Z.eqb_neq in H
           end;
    Z.div_mod_to_equations; lia.
Qed.

Lemma days_before_year_mono y k :
  0 <= k -> days_before_year y <= days_before_year (y + k).
Proof.
  intros Hk. revert k Hk. apply natlike_ind.
  - rewrite Z.add_0_r. lia.
  - intros k Hk IH. replace (y + Z.succ k) with (y + k + 1) by lia.
    rewrite days_before_year_step. destruct (is_leap (y + k)); lia.
Qed.

Ltac month_cases m :=
  let H := fresh in
  assert (H : m = 1 \/ m = 2 \/ m = 3 \/ m = 4 \/ m = 5 \/ m = 6 \/ m = 7
              \/ m = 8 \/ m = 9 \/ m = 10 \/ m = 11 \/ m = 12) by lia;
  repeat (destruct H as [H|H]; [subst m|]); [..|subst m].

(** A date that exists lies in its year. *)
Lemma ymd2ord_in_year y m d :
  1 <= m <= 12 -> 1 <= d <= days_in_month y m ->
  days_before_year y < ymd2ord y m d <= days_before_year (y + 1).
Proof.
  intros Hm Hd. rewrite days_before_year_step.
  unfold ymd2ord, days_before_month, days_in_month in *.
  month_cases m; destruct (is_leap y); cbn in Hd |- *; lia.
Qed.

Lemma ymd2ord_lt_month y m d m' d' :
  1 <= m -> m < m' -> m' <= 12 ->
  d <= days_in_month y m -> 1 <= d' ->
  ymd2ord y m d < ymd2ord y m' d'.
Proof.
  intros Hm Hlt Hm' Hd Hd'.
  unfold ymd2ord, days_before_month, days_in_month in *.
  assert (1 <= m <= 12) by lia.
  month_cases m; month_cases m'; try lia;
    destruct (is_leap y); cbn in Hd |- *; lia.
Qed.

Lemma ymd2ord_lt_year y m d y' m' d' :
  y < y' -> 1 <= m <= 12 -> 1 <= d <= days_in_month y m ->
  1 <= m' <= 12 -> 1 <= d' <= days_in_month y' m' ->
  ymd2ord y m d < ymd2ord y' m' d'.
Proof.
  intros Hy Hm Hd Hm' Hd'.
  pose proof (ymd2ord_in_year y m d Hm Hd).
  pose proof (ymd2ord_in_year y' m' d' Hm' Hd').
  pose proof (days_before_year_mono (y + 1) (y' - (y + 1)) ltac:(lia)) as Hmono.
  replace (y + 1 + (y' - (y + 1))) with y' in Hmono by ring. lia.
Qed.

Lemma valid_fields_inv y m d hh mm :
  valid_fields y m d hh mm = true ->
  1 <= y <= 9999 /\ 1 <= m <= 12 /\ 1 <= d <= days_in_month y m
  /\ 0 <= hh <= 23 /\ 0 <= mm <= 59.
Proof.
  unfold valid_fields. intros H.
  repeat (apply andb_true_iff in H as [H ?]).
  repeat match goal with
         | H : (_ <=? _) = true |- _ => apply Z.leb_le in H
         end. lia.
Qed.

(** On timestamps that exist, the order of the fields is the order of
    the minutes. *)
Lemma ltb_of_minutes a b :
  valid a -> valid b -> to_minutes a < to_minutes b -> Datetime.ltb a b = true.
Proof.
  unfold valid. destruct a as [y m d hh mm], b as [y' m' d' hh' mm'].
  cbn [year month day hour minute].
  intros Ha Hb. apply valid_fields_inv in Ha, Hb.
  unfold to_minutes, toordinal, Datetime.ltb. cbn [year month day hour minute].
  intros Hlt.
  destruct (y <? y') eqn:Ey; [reflexivity|]. apply Z.ltb_ge in Ey.
  destruct (y =? y') eqn:Ey'.
  2:{ apply Z.eqb_neq in Ey'.
      pose proof (ymd2ord_lt_year y' m' d' y m d). lia. }
  apply Z.eqb_eq in Ey'. subst y'. cbn [orb andb].
  destruct (m <? m') eqn:Em; [reflexivity|]. apply Z.ltb_ge in Em.
  destruct (m =? m') eqn:Em'.
  2:{ apply Z.eqb_neq in Em'.
      pose proof (ymd2ord_lt_month y m' d' m d). lia. }
  apply Z.eqb_eq in Em'. subst m'. cbn [orb andb].
  unfold ymd2ord in Hlt.
  destruct (d <? d') eqn:Ed; [reflexivity|]. apply Z.ltb_ge in Ed.
  destruct (d =? d') eqn:Ed'; [|apply Z.eqb_neq in Ed'; lia].
  apply Z.eqb_eq in Ed'. subst d'. cbn [orb andb].
  destruct (hh <? hh') eqn:Eh; [reflexivity|]. apply Z.ltb_ge in Eh.
  destruct (hh =? hh') eqn:Eh'; [|apply Z.eqb_neq in Eh'; lia].
  apply Z.eqb_eq in Eh'. subst hh'. cbn [orb andb].
  apply Z.ltb_lt. lia.
Qed.

Lemma ltb_irrefl a : Datetime.ltb a a = false.
Proof.
  unfold Datetime.ltb. rewrite !Z.ltb_irrefl, !Z.eqb_refl. reflexivity.
Qed.

(** [t + timedelta(minutes=n)], when it does not overflow, is the
    timestamp [n] minutes from [t], and it exists. *)
Lemma add_minutes_inv t n e :
  add_minutes t n = Ok e ->
  to_minutes e = to_minutes t + n /\ valid e.
Proof.
  unfold add_minutes. cbv zeta.
  set (total := to_minutes t + n).
  destruct ((0 <? total / 1440) && (total / 1440 <=? MAXORDINAL)) eqn:Hc;
    [|discriminate].
  apply andb_true_iff in Hc as [H0 Hmax].
  apply Z.ltb_lt in H0. apply Z.leb_le in Hmax.
  pose proof (ord2ymd_sound (total / 1440) ltac:(lia)) as Hs.
  destruct (ord2ymd (total / 1440)) as [[y m] d].
  destruct Hs as (Hord & Hm & Hd & Hy & Hy').
  intros [= <-].
  pose proof (Z.div_mod total 1440 ltac:(lia)).
  pose proof (Z.mod_pos_bound total 1440 ltac:(lia)) as Hrem.
  pose proof (Z.div_mod (total mod 1440) 60 ltac:(lia)).
  pose proof (Z.mod_pos_bound (total mod 1440) 60 ltac:(lia)).
  assert (0 <= total mod 1440 / 60 <= 23).
  { split; [apply Z.div_pos; lia|].
    apply Z.lt_succ_r. apply Z.div_lt_upper_bound; lia. }
  split.
  - unfold to_minutes at 1, toordinal. cbn [year month day hour minute].
    rewrite Hord. lia.
  - unfold valid, valid_fields. cbn [year month day hour minute].
    repeat (apply andb_true_iff; split); apply Z.leb_le; lia.
Qed.

Lemma parse_datetime_valid date_text time_text t :
  parse_datetime date_text time_text = Ok (Some t) -> valid t.
Proof.
  unfold parse_datetime.
  destruct (DATE_RE_search (norm date_text)) as [[[d m] y]|]; [|discriminate].
  destruct (TIME_RE_search _) as [[h mi]|];
    destruct (Datetime.make _ _ _ _ _) as [t'|] eqn:Hm; try discriminate;
    apply make_inv in Hm as [-> Hv]; intros [= <-]; exact Hv.
Qed.

Lemma C10_witness :
  parse_row offline empty_page plain_join [] 90 false scenario_row =
  parse_row offline empty_page plain_join [] 90 false scenario_row_variant.
Proof.
  apply C10_only_cells_1_to_7_matter.
  - cbn. lia.
  - cbn. lia.
  - intros i Hi.
    do 8 (destruct i as [|i]; [first [lia | reflexivity]|]). lia.
Defined.



(** C6, as the code has it: for every emitted record under a duration
    greater than zero, the end is later than the start in the order of
    timestamps. *)
Theorem C6_end_after_start_when_positive :
  forall http_get parse_html urljoin url default_duration enrich_halls tds r,
    0 < default_duration ->
    parse_row http_get parse_html urljoin url default_duration enrich_halls tds
      = Ok (Emit r) ->
    exists start_dt end_dt,
      parse_datetime (cell_text (item tds 1))
        (Some (or_str (Some (cell_text (item tds 2))) (lit "19:30")))
        = Ok (Some start_dt)
      /\ add_minutes start_dt default_duration = Ok end_dt
      /\ Start_Date r = fmt_date start_dt /\ Start_Time r = fmt_time start_dt
      /\ End_Date r = fmt_date end_dt /\ End_Time r = fmt_time end_dt
      /\ Datetime.ltb start_dt end_dt = true.
Proof.
  intros * Hpos H.
  apply parse_row_emit_inv in H
    as (_ & g & start_dt & end_dt & loc & _ & Hp & Ha & _ & _ & Hsd & Hst & Hed & Het & _).
  exists start_dt, end_dt. repeat split; try assumption.
  pose proof (parse_datetime_valid _ _ _ Hp) as Hv.
  apply add_minutes_inv in Ha as [Hmin Hv'].
  apply ltb_of_minutes; [exact Hv|exact Hv'|lia].
Qed.

Lemma C6_witness :
  0 < 90
  /\ parse_row offline empty_page plain_join [] 90 false scenario_row
     = Ok (Emit scenario_record)
  /\ exists start_dt end_dt,
      parse_datetime (cell_text (item scenario_row 1))
        (Some (or_str (Some (cell_text (item scenario_row 2))) (lit "19:30")))
        = Ok (Some start_dt)
      /\ add_minutes start_dt 90 = Ok end_dt
      /\ Start_Date scenario_record = fmt_date start_dt
      /\ Start_Time scenario_record = fmt_time start_dt
      /\ End_Date scenario_record = fmt_date end_dt
      /\ End_Time scenario_record = fmt_time end_dt
      /\ Datetime.ltb start_dt end_dt = true.
Proof.
  assert (Hpos : 0 < 90) by lia.
  assert (H : parse_row offline empty_page plain_join [] 90 false scenario_row
              = Ok (Emit scenario_record)) by (vm_compute; reflexivity).
  split; [exact Hpos|]. split; [exact H|].
  exact (C6_end_after_start_when_positive _ _ _ _ _ _ _ _ Hpos H).
Defined.

(** C6, as the claim states it, fails: the command line accepts the
    duration 0, and the record emitted under it ends when it starts. *)
Lemma C6_counterexample :
  main online team_page_parser plain_join any_path true [] default_out 0 true
    = Ok (write_csv [zero_record])
  /\ parse_row offline empty_page plain_join [] 0 false scenario_row
     = Ok (Emit zero_record)
  /\ parse_datetime (cell_text (item scenario_row 1))
       (Some (or_str (Some (cell_text (item scenario_row 2))) (lit "19:30")))
     = Ok (Some scenario_start)
  /\ add_minutes scenario_start 0 = Ok scenario_start
  /\ Datetime.ltb scenario_start scenario_start = false
  /\ End_Date zero_record = Start_Date zero_record
  /\ End_Time zero_record = Start_Time zero_record.
Proof. repeat split; vm_compute; reflexivity. Qed.

(** ** The venue enricher *)

Lemma scan_headings_no_marker elems :
  forallb (fun t => negb (is_marker_heading t)) elems = true ->
  scan_headings elems = [].
Proof.
  induction elems as [|t rest IH]; [reflexivity|].
  cbn [forallb scan_headings]. intros H.
  apply andb_true_iff in H as [Ht Hrest]. apply negb_true_iff in Ht.
  unfold is_marker_heading in Ht. rewrite Ht. apply IH. exact Hrest.
Qed.

Lemma scan_headings_at_marker pre tag rest :
  forallb (fun t => negb (is_marker_heading t)) pre = true ->
  is_marker_heading tag = true ->
  scan_headings (pre ++ tag :: rest) = collect_blocks rest [].
Proof.
  intros Hpre Htag. induction pre as [|t pre IH].
  - cbn [app scan_headings]. unfold is_marker_heading in Htag.
    rewrite Htag. reflexivity.
  - cbn [forallb] in Hpre. apply andb_true_iff in Hpre as [Ht Hpre].
    apply negb_true_iff in Ht. unfold is_marker_heading in Ht.
    cbn [app scan_headings]. rewrite Ht. apply IH. exact Hpre.
Qed.

Lemma is_h1_4_truthy nm : is_h1_4 nm = true -> truthy nm = true.
Proof. destruct nm; [discriminate|reflexivity]. Qed.

Lemma collect_blocks_spec sibs : forall acc,
  (length acc < 3)%nat ->
  collect_blocks sibs acc =
  acc ++ firstn (3 - length acc)
           (block_texts (take_until (fun t => is_h1_4 (name_of t)) sibs)).
Proof.
  induction sibs as [|sib rest IH]; intros acc Hacc.
  - cbn. rewrite firstn_nil, app_nil_r. reflexivity.
  - cbn [collect_blocks take_until].
    destruct (is_h1_4 (name_of sib)) eqn:Hh.
    + rewrite (is_h1_4_truthy _ Hh). cbn [andb].
      unfold block_texts. cbn. rewrite firstn_nil, app_nil_r. reflexivity.
    + rewrite andb_false_r.
      unfold block_texts. cbn [filter map].
      fold (is_block sib). destruct (is_block sib) eqn:Hb.
      * cbn [map filter].
        destruct (truthy (norm (get_text [SP] true sib))) eqn:Ht.
        -- destruct (3 <=? length (acc ++ [norm (get_text [SP] true sib)]))%nat eqn:Hl.
           ++ apply Nat.leb_le in Hl. rewrite length_app in Hl. cbn in Hl.
              assert (E : (3 - length acc = 1)%nat) by lia. rewrite E.
              cbn [firstn]. reflexivity.
           ++ apply Nat.leb_gt in Hl. rewrite IH by exact Hl.
              rewrite length_app in *. cbn [length] in *.
              replace (3 - length acc)%nat with (S (3 - (length acc + 1)))%nat by lia.
              cbn [firstn]. rewrite <- app_assoc. reflexivity.
        -- replace (3 <=? length acc)%nat with false
             by (symmetry; apply Nat.leb_gt; exact Hacc).
           apply IH. exact Hacc.
      * replace (3 <=? length acc)%nat with false
          by (symmetry; apply Nat.leb_gt; exact Hacc).
        apply IH. exact Hacc.
Qed.

(** C8, as the code has it: when the tags of the venue page, in document
    order, reach their first marker heading, what is collected are the
    non-empty normalised texts of the paragraph, division and address
    elements that follow it, in document order, up to the next heading
    [h1] to [h4] of whatever level, and three of them at most. *)
Theorem C8_blocks_after_marker :
  forall pre tag rest,
    forallb (fun t => negb (is_marker_heading t)) pre = true ->
    is_marker_heading tag = true ->
    scan_headings (pre ++ tag :: rest) = blocks_until_any_heading rest
    /\ (length (scan_headings (pre ++ tag :: rest)) <= 3)%nat.
Proof.
  intros pre tag rest Hpre Htag.
  rewrite (scan_headings_at_marker _ _ _ Hpre Htag).
  rewrite collect_blocks_spec by (cbn; lia). cbn [app length Nat.sub].
  split; [reflexivity|]. apply firstn_le_length.
Qed.

Lemma C8_witness :
  scan_headings (descendant_tags hall_page_blocks) =
    [lit "Sporthalle"; lit "Musterstr. 1"; lit "13353 Berlin"]
  /\ (length (scan_headings (descendant_tags hall_page_blocks)) <= 3)%nat.
Proof.
  assert (Hpre : forallb (fun t => negb (is_marker_heading t)) [] = true)
    by reflexivity.
  assert (Htag : is_marker_heading (elem "h3" [Text (lit "Hallenadresse")]) = true)
    by (vm_compute; reflexivity).
  exact (C8_blocks_after_marker []
           (elem "h3" [Text (lit "Hallenadresse")])
           [elem "p" [Text (lit "Sporthalle")];
            elem "span" [Text (lit "Plan")];
            elem "p" [Text (lit "Musterstr. 1")];
            elem "address" [Text (lit "13353 Berlin")];
            elem "p" [Text (lit "Tel. 030")]] Hpre Htag).
Defined.

(** C8, as the claim states it, fails: after a marker heading [h1], a
    heading [h2] is of lower level, yet the code stops at it and collects
    nothing, where collecting up to the next heading of equal or higher
    level would have collected the address. *)
Lemma C8_counterexample :
  scan_headings (descendant_tags hall_page_subheading) = []
  /\ blocks_until_same_or_higher (elem "h1" [Text (lit "Hallenadresse")])
       [elem "h2" [Text (lit "Anfahrt")]; elem "p" [Text (lit "Musterstr. 1")]]
     = [lit "Musterstr. 1"].
Proof. split; vm_compute; reflexivity. Qed.

(** C7, as the code has it: the venue enricher returns exactly the
    normalised text of the venue cell when the cell has no link, when the
    link has no target, and when the fetch of the target fails; when the
    fetched page is parsed and has no marker heading it returns that text
    too, unless the normalised link text is non-empty and not contained
    in it, in which case it puts the link text and a dash before it. None
    of these cases raises. (A link target that [urljoin] rejects and a
    fetched page that the parser rejects are not among them: there the
    call raises.) *)
Theorem C7_fallback_to_cell_text :
  forall http_get parse_html urljoin cell page_url,
    let hall :=
      hall_address_from_cell http_get parse_html urljoin cell page_url in
    let fallback := norm (get_text [SP] true cell) in
    (find (lit "a") cell = None -> hall = Ok fallback) /\
    (forall a, find (lit "a") cell = Some a ->
       (or_str (attr_get (lit "href") (attrs_of a)) [] = [] ->
          hall = Ok fallback) /\
       (forall href hall_url,
          attr_get (lit "href") (attrs_of a) = Some href -> href <> [] ->
          urljoin page_url href = Some hall_url ->
          (http_get hall_url = None -> hall = Ok fallback) /\
          (forall html hs,
             http_get hall_url = Some html ->
             parse_html html = Some hs ->
             no_marker_heading hs = true ->
             let code := norm (get_text [] true a) in
             hall = Ok (if truthy code && negb (contains code fallback)
                        then code ++ [SP; EN_DASH; SP] ++ fallback
                        else fallback)))).
Proof.
  intros. subst hall fallback. unfold hall_address_from_cell.
  split; [intros ->; reflexivity|].
  intros a ->. split.
  - destruct (attr_get (lit "href") (attrs_of a)) as [[|c h]|];
      cbn [or_str]; intros; congruence || reflexivity.
  - intros href hall_url -> Hne ->.
    destruct href as [|c h]; [congruence|]. unfold fetch. split.
    + intros ->. reflexivity.
    + intros html hs -> -> Hno. unfold no_marker_heading in Hno.
      rewrite (scan_headings_no_marker _ Hno).
      destruct (truthy _ && negb _); reflexivity.
Qed.

(** C7, as the claim states it, fails: the fetched page is parsed and
    has no marker heading, and the link text is split by markup, so that
    it is not contained in the text of the cell; the result is not that
    text. *)
Lemma C7_counterexample :
  empty_page (lit "<html></html>") = Some empty_doc
  /\ no_marker_heading empty_doc = true
  /\ norm (get_text [SP] true split_link_cell) = lit "T U"
  /\ hall_address_from_cell online empty_page plain_join split_link_cell []
     = Ok (lit "TU" ++ [SP; EN_DASH; SP] ++ lit "T U").
Proof. repeat split; vm_compute; reflexivity. Qed.

(** ** The CSV writer, read back *)

Module CsvFacts.
Import Csv.

(** The reader fed with a text. *)
Local Notation "'feed' r rows s" := (read_events r rows (events s))
  (at level 10, r at level 9, rows at level 9, s at level 9, only parsing).

Lemma events_plain c s :
  is_lf c = false -> is_cr c = false -> s <> [] ->
  events (c :: s) = Ch c :: events s.
Proof.
  intros Hl Hc Hs. cbn [events]. rewrite Hl, Hc.
  destruct s; [congruence|reflexivity].
Qed.

Lemma special_false c :
  special c = false ->
  N.eqb c COMMA = false /\ N.eqb c QUOTE = false
  /\ is_cr c = false /\ is_lf c = false.
Proof.
  unfold special. intros H.
  repeat (apply orb_false_iff in H as [H ?]). tauto.
Qed.

(** Inside quotes every character but the quote is kept, line ends
    included. *)
Lemma feed_quoted_char fs b rows c s :
  N.eqb c QUOTE = false -> s <> [] ->
  feed (mkReader IN_QUOTED_FIELD fs b) rows (c :: s) =
  feed (mkReader IN_QUOTED_FIELD fs (b ++ [c])) rows s.
Proof.
  intros Hq Hs. cbn [events].
  destruct (is_lf c) eqn:Hl.
  - cbn. rewrite Hq. reflexivity.
  - destruct (is_cr c) eqn:Hc.
    + destruct s as [|c2 s]; [congruence|].
      destruct (is_lf c2); cbn; rewrite Hq; reflexivity.
    + destruct s as [|c2 s]; [congruence|].
      cbn. rewrite Hq. reflexivity.
Qed.

Lemma feed_quoted_quote fs b rows s :
  s <> [] ->
  feed (mkReader IN_QUOTED_FIELD fs b) rows (QUOTE :: QUOTE :: s) =
  feed (mkReader IN_QUOTED_FIELD fs (b ++ [QUOTE])) rows s.
Proof.
  intros Hs. rewrite events_plain by (reflexivity || discriminate).
  rewrite events_plain by (reflexivity || exact Hs).
  reflexivity.
Qed.

Lemma feed_quoted_body f : forall fs b rows tail,
  tail <> [] ->
  feed (mkReader IN_QUOTED_FIELD fs b) rows (escape f ++ tail) =
  feed (mkReader IN_QUOTED_FIELD fs (b ++ f)) rows tail.
Proof.
  induction f as [|c f IH]; intros fs b rows tail Ht.
  - cbn [escape app]. rewrite app_nil_r. reflexivity.
  - assert (Hne : escape f ++ tail <> []).
    { intros E. apply app_eq_nil in E as [_ E]. congruence. }
    cbn [escape]. destruct (N.eqb c QUOTE) eqn:Hq.
    + apply N.eqb_eq in Hq. subst c. cbn [app].
      rewrite feed_quoted_quote by exact Hne.
      rewrite IH by exact Ht. rewrite <- app_assoc. reflexivity.
    + cbn [app]. rewrite feed_quoted_char by assumption.
      rewrite IH by exact Ht. rewrite <- app_assoc. reflexivity.
Qed.

Lemma escape_plain f : existsb special f = false -> escape f = f.
Proof.
  induction f as [|c f IH]; [reflexivity|]. cbn [existsb escape].
  intros H. apply orb_false_iff in H as [Hc Hf].
  apply special_false in Hc as (_ & Hq & _ & _). rewrite Hq, IH by exact Hf.
  reflexivity.
Qed.

Lemma feed_plain_body f : forall fs b rows tail,
  existsb special f = false -> tail <> [] ->
  feed (mkReader IN_FIELD fs b) rows (f ++ tail) =
  feed (mkReader IN_FIELD fs (b ++ f)) rows tail.
Proof.
  induction f as [|c f IH]; intros fs b rows tail Hf Ht.
  - cbn [app]. rewrite app_nil_r. reflexivity.
  - cbn [existsb] in Hf. apply orb_false_iff in Hf as [Hc Hf].
    apply special_false in Hc as (Hk & Hq & Hcr & Hlf).
    assert (Hne : f ++ tail <> []).
    { intros E. apply app_eq_nil in E as [_ E]. congruence. }
    cbn [app]. rewrite events_plain by assumption.
    cbn [read_events parse_process_char st]. rewrite Hlf, Hcr, Hk. cbn [orb].
    unfold parse_add_char. cbn [fields field].
    rewrite IH by assumption. rewrite <- app_assoc. reflexivity.
Qed.

(** A field and the comma after it. *)
Lemma feed_field s0 fs rows f tail :
  fresh_state s0 -> tail <> [] ->
  feed (mkReader s0 fs []) rows (quote_field f ++ COMMA :: tail) =
  feed (mkReader START_FIELD (fs ++ [f]) []) rows tail.
Proof.
  intros Hs Ht. unfold quote_field.
  destruct (existsb special f) eqn:Hsp.
  - rewrite <- !app_assoc. cbn [app]. rewrite events_plain
      by (reflexivity || (intros E; apply app_eq_nil in E as [_ E]; discriminate)).
    replace (read_events (mkReader s0 fs []) rows
               (Ch QUOTE :: events (escape f ++ QUOTE :: COMMA :: tail)))
      with (feed (mkReader IN_QUOTED_FIELD fs []) rows
               (escape f ++ QUOTE :: COMMA :: tail))
      by (destruct Hs as [-> | ->]; reflexivity).
    rewrite feed_quoted_body by discriminate. cbn [app].
    rewrite events_plain by (reflexivity || discriminate).
    rewrite events_plain by (reflexivity || exact Ht).
    reflexivity.
  - rewrite escape_plain by exact Hsp.
    destruct f as [|c f].
    + cbn [app]. rewrite events_plain by (reflexivity || exact Ht).
      destruct Hs as [-> | ->]; reflexivity.
    + cbn [existsb] in Hsp. apply orb_false_iff in Hsp as [Hc Hf].
      apply special_false in Hc as (Hk & Hq & Hcr & Hlf).
      cbn [app]. rewrite events_plain
        by (assumption || (intros E; apply app_eq_nil in E as [_ E]; discriminate)).
      replace (read_events (mkReader s0 fs []) rows
                 (Ch c :: events (f ++ COMMA :: tail)))
        with (feed (mkReader IN_FIELD fs [c]) rows (f ++ COMMA :: tail))
        by (destruct Hs as [-> | ->];
            cbn [read_events parse_process_char process_start_field st];
            rewrite ?Hlf, ?Hcr, ?Hq, ?Hk; reflexivity).
      rewrite feed_plain_body by (assumption || discriminate).
      rewrite events_plain by (reflexivity || exact Ht).
      reflexivity.
Qed.

(** The last field of a row and the line terminator after it. *)
Lemma feed_last_field fs rows f rest :
  feed (mkReader START_FIELD fs []) rows (quote_field f ++ CR :: LF :: rest) =
  feed parse_reset (rows ++ [fs ++ [f]]) rest.
Proof.
  assert (Hend : forall s b, s = START_FIELD \/ s = IN_FIELD \/ s = QUOTE_IN_QUOTED_FIELD ->
            feed (mkReader s fs b) rows (CR :: LF :: rest) =
            feed parse_reset (rows ++ [fs ++ [b]]) rest).
  { intros s b Hs. cbn [events].
    change (is_lf CR) with false. change (is_cr CR) with true.
    change (is_lf LF) with true. cbv iota.
    destruct Hs as [-> | [-> | ->]]; reflexivity. }
  unfold quote_field.
  destruct (existsb special f) eqn:Hsp.
  - rewrite <- !app_assoc. cbn [app]. rewrite events_plain
      by (reflexivity || (intros E; apply app_eq_nil in E as [_ E]; discriminate)).
    change (read_events (mkReader START_FIELD fs []) rows
               (Ch QUOTE :: events (escape f ++ QUOTE :: CR :: LF :: rest)))
      with (feed (mkReader IN_QUOTED_FIELD fs []) rows
               (escape f ++ QUOTE :: CR :: LF :: rest)).
    rewrite feed_quoted_body by discriminate. cbn [app].
    rewrite events_plain by (reflexivity || discriminate).
    change (read_events (mkReader IN_QUOTED_FIELD fs f) rows
              (Ch QUOTE :: events (CR :: LF :: rest)))
      with (feed (mkReader QUOTE_IN_QUOTED_FIELD fs f) rows (CR :: LF :: rest)).
    apply Hend. tauto.
  - rewrite escape_plain by exact Hsp.
    destruct f as [|c f].
    + cbn [app]. apply Hend. tauto.
    + cbn [existsb] in Hsp. apply orb_false_iff in Hsp as [Hc Hf].
      apply special_false in Hc as (Hk & Hq & Hcr & Hlf).
      cbn [app]. rewrite events_plain
        by (assumption || (intros E; apply app_eq_nil in E as [_ E]; discriminate)).
      replace (read_events (mkReader START_FIELD fs []) rows
                 (Ch c :: events (f ++ CR :: LF :: rest)))
        with (feed (mkReader IN_FIELD fs [c]) rows (f ++ CR :: LF :: rest))
        by (cbn [read_events parse_process_char process_start_field st];
            rewrite ?Hlf, ?Hcr, ?Hq, ?Hk; reflexivity).
      rewrite feed_plain_body by (assumption || discriminate).
      apply Hend. tauto.
Qed.

Lemma feed_fields fields_ : forall fs rows rest,
  fields_ <> [] ->
  feed (mkReader START_FIELD fs []) rows
    (join [COMMA] (map quote_field fields_) ++ CR :: LF :: rest) =
  feed parse_reset (rows ++ [fs ++ fields_]) rest.
Proof.
  induction fields_ as [|f more IH]; intros fs rows rest Hne; [congruence|].
  destruct more as [|f' more].
  - cbn [map join]. apply feed_last_field.
  - cbn [map]. rewrite join_cons2. rewrite <- !app_assoc. cbn [app].
    rewrite feed_field
      by ((right; reflexivity)
          || (intros E; apply app_eq_nil in E as [_ E]; discriminate)).
    change (quote_field f' :: map quote_field more)
      with (map quote_field (f' :: more)).
    rewrite IH by discriminate. rewrite <- app_assoc. reflexivity.
Qed.

Lemma writerow_two f1 f2 more :
  writerow (f1 :: f2 :: more) =
  join [COMMA] (map quote_field (f1 :: f2 :: more)) ++ [CR; LF].
Proof. destruct f1; reflexivity. Qed.

(** A row of two fields or more is read back as written. *)
Lemma feed_row f1 f2 more rows rest :
  feed parse_reset rows (writerow (f1 :: f2 :: more) ++ rest) =
  feed parse_reset (rows ++ [f1 :: f2 :: more]) rest.
Proof.
  rewrite writerow_two. cbn [map]. rewrite join_cons2.
  rewrite <- !app_assoc. cbn [app]. unfold parse_reset at 1.
  rewrite feed_field
    by ((left; reflexivity)
        || (intros E; apply app_eq_nil in E as [_ E]; discriminate)).
  change (quote_field f2 :: map quote_field more)
    with (map quote_field (f2 :: more)).
  rewrite feed_fields by discriminate. reflexivity.
Qed.

Lemma feed_rows table : forall rows,
  Forall wide table ->
  feed parse_reset rows (concat (map writerow table)) = Some (rows ++ table).
Proof.
  induction table as [|fs table IH]; intros rows H.
  - cbn. rewrite app_nil_r. reflexivity.
  - inversion H as [|? ? Hw Ht]; subst.
    destruct fs as [|f1 [|f2 more]]; try (unfold wide in Hw; cbn in Hw; lia).
    cbn [map concat]. rewrite feed_row, IH by exact Ht.
    rewrite <- app_assoc. reflexivity.
Qed.

End CsvFacts.

(** C9: for every list of records, the text that [write_csv] writes is
    read back by the csv reader as one header row followed by one row per
    record, in order: the header holds the nine column names Subject,
    Start Date, Start Time, End Date, End Time, All Day Event,
    Description, Location, Private, and each data row holds the nine
    values of its record in that order, whatever characters (commas,
    quotes, line ends) the values contain. *)
Theorem C9_csv_round_trip :
  forall rows : list MatchRecord,
    Csv.read_csv (write_csv rows) =
    Some ([lit "Subject"; lit "Start Date"; lit "Start Time"; lit "End Date";
           lit "End Time"; lit "All Day Event"; lit "Description";
           lit "Location"; lit "Private"]
          :: map (fun r => [Subject r; Start_Date r; Start_Time r; End_Date r;
                            End_Time r; All_Day_Event r; Description r;
                            Location r; Private r]) rows)
    /\ option_map (@length (list str)) (Csv.read_csv (write_csv rows))
       = Some (1 + length rows)%nat.
Proof.
  intros rows.
  assert (E : Csv.read_csv (write_csv rows)
              = Some (fieldnames :: map dict_to_list rows)).
  { unfold Csv.read_csv, write_csv.
    change (Csv.writerow fieldnames
            ++ concat (map (fun r => Csv.writerow (dict_to_list r)) rows))
      with (concat (map Csv.writerow (fieldnames :: nil))
            ++ concat (map (fun r => Csv.writerow (dict_to_list r)) rows)).
    rewrite <- (map_map dict_to_list Csv.writerow).
    rewrite <- concat_app, <- map_app.
    rewrite CsvFacts.feed_rows; [reflexivity|].
    apply Forall_app. split.
    - constructor; [|constructor]. unfold wide. cbn. lia.
    - apply Forall_forall. intros fs Hin. apply in_map_iff in Hin as (r & <- & _).
      unfold wide. cbn. lia. }
  split; [exact E|].
  rewrite E. cbn [option_map length]. rewrite length_map. reflexivity.
Qed.

(** ** Further properties of the code *)

(** X1: the normaliser returns words (non-empty, free of white space of
    any kind, the no-break space included) joined by single spaces, so
    its result has no leading, trailing or repeated space; normalising
    twice changes nothing. *)
Theorem X1_norm_normal_form :
  forall s,
    (exists ws, Forall word ws /\ norm s = join [SP] ws)
    /\ norm (norm s) = norm s.
Proof.
  intros s. split.
  - exists (split s). split; [apply split_words|apply norm_split].
  - rewrite (norm_split (norm s)), split_norm, <- norm_split. reflexivity.
Qed.

(** X2: [parse_team_portrait] ends with the error of the fetch when the
    team page cannot be fetched, with the error of the parser when the
    parser rejects the fetched page, and with [RuntimeError] when the
    parsed page has no schedule table. *)
Theorem X2_fatal_errors :
  forall http_get parse_html urljoin url default_duration enrich_halls,
    let run :=
      parse_team_portrait http_get parse_html urljoin url default_duration
        enrich_halls in
    (http_get url = None -> run = Raise RequestException) /\
    (forall html, http_get url = Some html ->
       (parse_html html = None -> run = Raise ParserRejectedMarkup) /\
       (forall soup, parse_html html = Some soup ->
          find_schedule_tables soup = [] ->
          run = Raise RuntimeError)).
Proof.
  intros. subst run. unfold parse_team_portrait, fetch. split.
  - intros ->. reflexivity.
  - intros html ->. cbn [bind]. split.
    + intros ->. reflexivity.
    + intros soup -> ->. reflexivity.
Qed.

(** X3: every emitted record has a subject that is not empty and the
    text "False" in the columns All Day Event and Private. *)
Theorem X3_record_constants :
  forall http_get parse_html urljoin url default_duration enrich_halls tds r,
    parse_row http_get parse_html urljoin url default_duration enrich_halls tds
      = Ok (Emit r) ->
    Subject r <> [] /\ All_Day_Event r = lit "False" /\ Private r = lit "False".
Proof.
  intros * H.
  apply parse_row_emit_inv in H
    as (_ & g & start_dt & end_dt & loc & _ & _ & _ & _ & Hs & _ & _ & _ & _ & _ & Ha & Hp).
  repeat split; [|exact Ha|exact Hp].
  rewrite Hs. intros E. apply app_eq_nil in E as [_ E]. discriminate.
Qed.

Lemma X3_witness :
  parse_row offline empty_page plain_join [] 90 false scenario_row
    = Ok (Emit scenario_record)
  /\ Subject scenario_record <> []
  /\ All_Day_Event scenario_record = lit "False"
  /\ Private scenario_record = lit "False".
Proof.
  assert (H : parse_row offline empty_page plain_join [] 90 false scenario_row
              = Ok (Emit scenario_record)) by (vm_compute; reflexivity).
  split; [exact H|].
  exact (X3_record_constants _ _ _ _ _ _ _ _ H).
Defined.

Lemma DATE_RE_at_shape suf d m y :
  DATE_RE_at suf = Some (d, m, y) <-> date_shape suf d m y.
Proof.
  split.
  - intros H. apply DATE_RE_at_inv in H
      as (d1 & d2 & m1 & m2 & y1 & y2 & y3 & y4 & rest & E & Ed & Em & Ey & Hd).
    exists d1, d2, m1, m2, y1, y2, y3, y4, rest. repeat split; assumption.
  - intros (d1 & d2 & m1 & m2 & y1 & y2 & y3 & y4 & rest & -> & Hd & -> & -> & ->).
    unfold DATE_RE_at. rewrite Hd, N.eqb_refl. reflexivity.
Qed.

Lemma DATE_RE_at_no_shape suf :
  DATE_RE_at suf = None <-> forall d m y, ~ date_shape suf d m y.
Proof.
  split.
  - intros H d m y Hs. apply DATE_RE_at_shape in Hs. congruence.
  - intros H. destruct (DATE_RE_at suf) as [[[d m] y]|] eqn:E; [|reflexivity].
    exfalso. apply (H d m y). apply DATE_RE_at_shape. exact E.
Qed.

(** X4: [DATE_RE.search] returns the groups [d], [m], [y] exactly when
    the text splits into a part before and a rest that starts with two
    decimal digits [d], a dot, two decimal digits [m], a dot and four
    decimal digits [y], and no rest that starts further left starts with
    such a shape: it finds the leftmost DD.MM.YYYY, and fails exactly when
    there is none. *)
Theorem X4_date_search_leftmost :
  forall s,
    (forall d m y,
       DATE_RE_search s = Some (d, m, y) <->
       exists pre suf,
         s = pre ++ suf /\ date_shape suf d m y /\
         forall pre' suf',
           s = pre' ++ suf' -> (length pre' < length pre)%nat ->
           forall d' m' y', ~ date_shape suf' d' m' y')
    /\ (DATE_RE_search s = None <->
        forall pre suf d m y, s = pre ++ suf -> ~ date_shape suf d m y).
Proof.
  intros s. split.
  - intros d m y. unfold DATE_RE_search. rewrite re_search_leftmost. split.
    + intros (pre & suf & E & Hat & Hmin). exists pre, suf.
      split; [exact E|]. split; [apply DATE_RE_at_shape; exact Hat|].
      intros pre' suf' E' Hl. apply DATE_RE_at_no_shape.
      apply (Hmin pre' suf' E' Hl).
    + intros (pre & suf & E & Hs & Hmin). exists pre, suf.
      split; [exact E|]. split; [apply DATE_RE_at_shape; exact Hs|].
      intros pre' suf' E' Hl. apply DATE_RE_at_no_shape.
      apply (Hmin pre' suf' E' Hl).
  - split.
    + intros Hnone pre suf d m y E Hs.
      assert (Hsome : exists g, DATE_RE_search s = Some g); [|destruct Hsome; congruence].
      clear Hnone. subst s. apply DATE_RE_at_shape in Hs.
      induction pre as [|c pre IH].
      * cbn [app]. unfold DATE_RE_search. destruct suf; cbn [re_search];
          rewrite Hs; eexists; reflexivity.
      * cbn [app]. unfold DATE_RE_search in *. cbn [re_search].
        destruct (DATE_RE_at (c :: pre ++ suf)); [eexists; reflexivity|exact IH].
    + intros Hno. destruct (DATE_RE_search s) as [[[d m] y]|] eqn:E; [|reflexivity].
      exfalso. unfold DATE_RE_search in E.
      apply re_search_leftmost in E as (pre & suf & Es & Hat & _).
      apply (Hno pre suf d m y Es). apply DATE_RE_at_shape. exact Hat.
Qed.

(** ** Further properties: normalisation and formats *)

Lemma split_go_nil_iff s : forall cur,
  split_go cur s = [] <-> cur = [] /\ forallb is_space s = true.
Proof.
  induction s as [|c s IH]; intros cur.
  - cbn. destruct cur; split; intros H; try tauto; try discriminate.
    destruct H; discriminate.
  - cbn [split_go forallb]. destruct (is_space c) eqn:Hc; cbn [andb].
    + destruct cur as [|x cur].
      * apply IH.
      * split; [discriminate|]. intros [E _]. discriminate.
    + rewrite IH. split; [intros [E _]; discriminate|intros [_ E]; discriminate].
Qed.

Lemma join_words_nil ws : Forall word ws -> join [SP] ws = [] -> ws = [].
Proof.
  intros Hw E. destruct ws as [|w ws]; [reflexivity|].
  destruct (join_words_head _ Hw) as (c & s & E' & _); [discriminate|].
  congruence.
Qed.

(** X5: the normaliser returns the empty string exactly for the texts
    that consist of white space only (none, spaces, tabs, line breaks,
    no-break spaces). *)
Theorem X5_norm_empty_iff_blank :
  forall s, norm s = [] <-> forallb is_space s = true.
Proof.
  intros s. rewrite norm_split. split.
  - intros E. apply join_words_nil in E; [|apply split_words].
    apply (split_go_nil_iff s []) in E. tauto.
  - intros H. assert (E : split s = []) by (apply split_go_nil_iff; tauto).
    rewrite E. reflexivity.
Qed.

Lemma digit_value_digit_char d :
  0 <= d <= 9 -> digit_value (digit_char d) = Some d.
Proof.
  intros H.
  assert (E : d = 0 \/ d = 1 \/ d = 2 \/ d = 3 \/ d = 4 \/ d = 5 \/ d = 6
              \/ d = 7 \/ d = 8 \/ d = 9) by lia.
  repeat (destruct E as [E|E]; [subst d; reflexivity|]). subst d. reflexivity.
Qed.

Lemma py_int_pad2 n : 0 <= n <= 99 -> py_int (pad2 n) = n.
Proof.
  intros H. unfold pad2, py_int. cbn [fold_left].
  assert (H1 : 0 <= n / 10 mod 10 <= 9)
    by (pose proof (Z.mod_pos_bound (n / 10) 10); lia).
  assert (H2 : 0 <= n mod 10 <= 9)
    by (pose proof (Z.mod_pos_bound n 10); lia).
  rewrite (digit_value_digit_char _ H1), (digit_value_digit_char _ H2).
  Z.div_mod_to_equations. lia.
Qed.

Lemma py_int_pad4 n : 0 <= n <= 9999 -> py_int (pad4 n) = n.
Proof.
  intros H. unfold pad4, py_int. cbn [fold_left].
  assert (H1 : 0 <= n / 1000 mod 10 <= 9)
    by (pose proof (Z.mod_pos_bound (n / 1000) 10); lia).
  assert (H2 : 0 <= n / 100 mod 10 <= 9)
    by (pose proof (Z.mod_pos_bound (n / 100) 10); lia).
  assert (H3 : 0 <= n / 10 mod 10 <= 9)
    by (pose proof (Z.mod_pos_bound (n / 10) 10); lia).
  assert (H4 : 0 <= n mod 10 <= 9)
    by (pose proof (Z.mod_pos_bound n 10); lia).
  rewrite (digit_value_digit_char _ H1), (digit_value_digit_char _ H2),
    (digit_value_digit_char _ H3), (digit_value_digit_char _ H4).
  Z.div_mod_to_equations. lia.
Qed.

(** X6: for a timestamp that exists, from the year 1000 on, the formatted
    date has the shape MM/DD/YYYY and the formatted time the shape HH:MM,
    and reading the digit groups back with [int] gives the month, day,
    year, hour and minute of the timestamp. *)
Theorem X6_formats_read_back :
  forall t, valid t -> 1000 <= year t ->
    length (fmt_date t) = 10%nat /\ length (fmt_time t) = 5%nat
    /\ nth_error (fmt_date t) 2 = Some SLASH
    /\ nth_error (fmt_date t) 5 = Some SLASH
    /\ nth_error (fmt_time t) 2 = Some COLON
    /\ py_int (firstn 2 (fmt_date t)) = month t
    /\ py_int (firstn 2 (skipn 3 (fmt_date t))) = day t
    /\ py_int (skipn 6 (fmt_date t)) = year t
    /\ py_int (firstn 2 (fmt_time t)) = hour t
    /\ py_int (skipn 3 (fmt_time t)) = minute t.
Proof.
  intros [y m d hh mm] Hv _. unfold valid in Hv. cbn [year month day hour minute] in Hv.
  apply valid_fields_inv in Hv as (Hy & Hm & Hd & Hh & Hmi).
  assert (Hd' : d <= 31).
  { unfold days_in_month in Hd.
    destruct ((m =? 2) && is_leap y); [lia|].
    assert (DAYS_IN_MONTH m <= 31); [|lia].
    month_cases m; cbn; lia. }
  unfold fmt_date, fmt_time. cbn [year month day hour minute].
  repeat split; try reflexivity.
  - apply (py_int_pad2 m). lia.
  - apply (py_int_pad2 d). lia.
  - apply (py_int_pad4 y). lia.
  - apply (py_int_pad2 hh). lia.
  - apply (py_int_pad2 mm). lia.
Qed.

Lemma X6_witness :
  valid scenario_start /\ 1000 <= year scenario_start
  /\ length (fmt_date scenario_start) = 10%nat
  /\ length (fmt_time scenario_start) = 5%nat
  /\ nth_error (fmt_date scenario_start) 2 = Some SLASH
  /\ nth_error (fmt_date scenario_start) 5 = Some SLASH
  /\ nth_error (fmt_time scenario_start) 2 = Some COLON
  /\ py_int (firstn 2 (fmt_date scenario_start)) = 10
  /\ py_int (firstn 2 (skipn 3 (fmt_date scenario_start))) = 3
  /\ py_int (skipn 6 (fmt_date scenario_start)) = 2025
  /\ py_int (firstn 2 (fmt_time scenario_start)) = 19
  /\ py_int (skipn 3 (fmt_time scenario_start)) = 30.
Proof.
  assert (Hv : valid scenario_start) by reflexivity.
  assert (Hy : 1000 <= year scenario_start) by (cbn; lia).
  split; [exact Hv|]. split; [exact Hy|].
  exact (X6_formats_read_back scenario_start Hv Hy).
Defined.

(** ** Further properties: outcomes of the venue enricher and the row parser *)

Lemma is_prefix_app p x : is_prefix p (p ++ x) = true.
Proof.
  induction p as [|c p IH]; [destruct x; reflexivity|].
  cbn [app is_prefix]. rewrite N.eqb_refl, IH. reflexivity.
Qed.

Lemma contains_app_l p x : contains p (p ++ x) = true.
Proof.
  destruct (p ++ x) eqn:E; cbn [contains]; rewrite <- E, is_prefix_app; reflexivity.
Qed.

Lemma contains_nil s : contains [] s = true.
Proof. destruct s; reflexivity. Qed.

Lemma hall_address_raises http_get parse_html urljoin cell page_url e :
  hall_address_from_cell http_get parse_html urljoin cell page_url = Raise e ->
  e = ValueError \/ e = ParserRejectedMarkup.
Proof.
  unfold hall_address_from_cell.
  destruct (find (lit "a") cell) as [a|]; [|discriminate].
  destruct (attr_get (lit "href") (attrs_of a)) as [[|c h]|]; try discriminate.
  destruct (urljoin page_url (c :: h)) as [u|]; [|intros [= <-]; left; reflexivity].
  destruct (fetch http_get u) as [html|]; [|discriminate].
  destruct (parse_html html) as [hs|]; [|intros [= <-]; right; reflexivity].
  destruct (truthy _ && negb _); discriminate.
Qed.


(** X8: when the target of the link is fetched and the parser accepts
    the page, the location the enricher returns contains the normalised
    link text (the hall code), whatever the page holds. *)
Theorem X8_enriched_location_has_code :
  forall http_get parse_html urljoin cell page_url a href hall_url html hs,
    find (lit "a") cell = Some a ->
    attr_get (lit "href") (attrs_of a) = Some href -> href <> [] ->
    urljoin page_url href = Some hall_url ->
    http_get hall_url = Some html ->
    parse_html html = Some hs ->
    exists addr,
      hall_address_from_cell http_get parse_html urljoin cell page_url = Ok addr
      /\ contains (norm (get_text [] true a)) addr = true.
Proof.
  intros * Hf Ha Hne Hj Hg Hp. unfold hall_address_from_cell, fetch.
  rewrite Hf, Ha. destruct href as [|c h]; [congruence|].
  rewrite Hj, Hg, Hp. cbv zeta.
  set (code := norm (get_text [] true a)).
  match goal with
  | |- context [contains code ?x] => set (addr := x)
  end.
  destruct (truthy code) eqn:Ht; cbn [andb].
  - destruct (contains code addr) eqn:Hc; cbn [negb].
    + exists addr. split; [reflexivity|exact Hc].
    + eexists. split; [reflexivity|]. apply contains_app_l.
  - exists addr. split; [reflexivity|].
    destruct code; [apply contains_nil|discriminate].
Qed.

Lemma X8_witness :
  exists addr,
    hall_address_from_cell online empty_page plain_join split_link_cell [] = Ok addr
    /\ contains (norm (get_text [] true
                   (link "/halle/TU" [Text (lit "T"); elem "b" [Text (lit "U")]])))
         addr = true.
Proof.
  apply (X8_enriched_location_has_code online empty_page plain_join
           split_link_cell []
           (link "/halle/TU" [Text (lit "T"); elem "b" [Text (lit "U")]])
           (lit "/halle/TU") (lit "/halle/TU") (lit "<html></html>") empty_doc);
    try reflexivity. discriminate.
Defined.

Lemma make_raises y m d hh mm e :
  Datetime.make y m d hh mm = Raise e -> e = ValueError.
Proof.
  unfold Datetime.make. destruct (valid_fields y m d hh mm); congruence.
Qed.

Lemma parse_datetime_raises date_text time_text e :
  parse_datetime date_text time_text = Raise e -> e = ValueError.
Proof.
  rewrite parse_datetime_eq.
  destruct (DATE_RE_search date_text) as [[[d m] y]|]; [|discriminate].
  destruct (TIME_RE_search _) as [[h mi]|];
    destruct (Datetime.make _ _ _ _ _) eqn:Hm; cbn [bind]; try discriminate;
    intros [= <-]; eapply make_raises; exact Hm.
Qed.

Lemma add_minutes_raises t n e : add_minutes t n = Raise e -> e = OverflowError.
Proof.
  unfold add_minutes. cbv zeta.
  destruct (_ && _); [|congruence].
  destruct (ord2ymd _) as [[y m] d]. discriminate.
Qed.

Lemma parse_datetime_not_absent date_text time_text g :
  DATE_RE_search date_text = Some g ->
  parse_datetime date_text time_text <> Ok None.
Proof.
  intros Hg. rewrite parse_datetime_eq, Hg. destruct g as [[d m] y].
  destruct (TIME_RE_search _) as [[h mi]|];
    destruct (Datetime.make _ _ _ _ _); cbn [bind]; discriminate.
Qed.

(** X9: the row parser skips a row exactly when the row has fewer than 7
    cells or its normalised date cell has no DD.MM.YYYY match: past these
    two tests a row is emitted or ends in an error, and the later test of
    the resolved start never skips. *)
Theorem X9_skip_iff_gate_fails :
  forall http_get parse_html urljoin url default_duration enrich_halls tds,
    parse_row http_get parse_html urljoin url default_duration enrich_halls tds
      = Ok Skip
    <->
    ((length tds < 7)%nat \/ DATE_RE_search (cell_text (item tds 1)) = None).
Proof.
  intros. split.
  - unfold parse_row.
    destruct (length tds <? 7)%nat eqn:Hl; [intros _; left; apply Nat.ltb_lt; exact Hl|].
    destruct (DATE_RE_search (cell_text (item tds 1))) as [g|] eqn:Hg;
      [|intros _; right; reflexivity].
    pose proof (parse_datetime_not_absent (cell_text (item tds 1))
                  (Some (or_str (Some (cell_text (item tds 2))) (lit "19:30")))
                  g Hg) as Hna.
    destruct (parse_datetime _ _) as [[start_dt|]|e]; cbn [bind];
      [|congruence|discriminate].
    destruct (add_minutes start_dt default_duration); cbn [bind]; [|discriminate].
    match goal with
    | |- bind ?l _ = _ -> _ => destruct l
    end; cbn [bind]; discriminate.
  - intros [H|H]; [apply parse_row_short|apply parse_row_no_date]; exact H.
Qed.

Lemma parse_row_error_kind http_get parse_html urljoin url default_duration
  enrich_halls tds e :
  parse_row http_get parse_html urljoin url default_duration enrich_halls tds
    = Raise e ->
  e = ValueError \/ e = OverflowError
  \/ (e = ParserRejectedMarkup /\ enrich_halls = true).
Proof.
  unfold parse_row.
  destruct (length tds <? 7)%nat; [discriminate|].
  destruct (DATE_RE_search (cell_text (item tds 1))); [|discriminate].
  intros H.
  destruct (parse_datetime _ _) as [[start_dt|]|e'] eqn:Hp; cbn [bind] in H;
    [|discriminate|injection H as <-; left; eapply parse_datetime_raises; exact Hp].
  destruct (add_minutes start_dt default_duration) as [end_dt|e'] eqn:Ha;
    cbn [bind] in H;
    [|injection H as <-; right; left; eapply add_minutes_raises; exact Ha].
  destruct enrich_halls.
  - destruct (hall_address_from_cell _ _ _ _ _) as [loc|e'] eqn:Hh;
      cbn [bind] in H; [discriminate|].
    injection H as <-.
    apply hall_address_raises in Hh as [->| ->];
      [left; reflexivity|right; right; split; reflexivity].
  - cbn [bind] in H. discriminate.
Qed.

(** X10: the only errors of the row parser are [ValueError] (a date or
    time that does not exist, or a link target [urljoin] rejects),
    [OverflowError] (an end past the last day of the calendar) and, with
    venue enrichment only, [ParserRejectedMarkup] (a venue page the
    parser rejects); they arise only for rows that pass the two tests of
    the gate. *)
Theorem X10_row_errors :
  forall http_get parse_html urljoin url default_duration enrich_halls tds e,
    parse_row http_get parse_html urljoin url default_duration enrich_halls tds
      = Raise e ->
    (e = ValueError \/ e = OverflowError
     \/ (e = ParserRejectedMarkup /\ enrich_halls = true))
    /\ (7 <= length tds)%nat
    /\ exists g, DATE_RE_search (cell_text (item tds 1)) = Some g.
Proof.
  intros * H. split; [eapply parse_row_error_kind; exact H|].
  revert H. unfold parse_row.
  destruct (length tds <? 7)%nat eqn:Hl; [discriminate|].
  apply Nat.ltb_ge in Hl.
  destruct (DATE_RE_search (cell_text (item tds 1))) as [g|] eqn:Hg; [|discriminate].
  intros _. split; [exact Hl|exists g; reflexivity].
Qed.

Lemma X10_witness :
  parse_row online rejecting_parser plain_join [] 90 true scenario_row
    = Raise ParserRejectedMarkup
  /\ (ParserRejectedMarkup = ValueError \/ ParserRejectedMarkup = OverflowError
      \/ (ParserRejectedMarkup = ParserRejectedMarkup /\ true = true))
  /\ (7 <= length scenario_row)%nat
  /\ exists g, DATE_RE_search (cell_text (item scenario_row 1)) = Some g.
Proof.
  assert (H : parse_row online rejecting_parser plain_join [] 90 true
                scenario_row = Raise ParserRejectedMarkup)
    by (vm_compute; reflexivity).
  split; [exact H|]. exact (X10_row_errors _ _ _ _ _ _ _ _ H).
Defined.

(** ** Further properties: the tables and the run over their rows *)

Lemma find_has_name nm l t :
  List.find (has_name nm) l = Some t -> name_of t = nm /\ In t l.
Proof.
  intros H. apply find_some in H as [Hin Hn].
  unfold has_name in Hn. apply str_eqb_eq in Hn. split; assumption.
Qed.

Lemma schedule_tables_in_spec elems :
  Forall (fun t => name_of t = lit "table" /\ In t elems)
    (schedule_tables_in elems)
  /\ (length (schedule_tables_in elems)
      <= length (filter is_schedule_heading elems))%nat.
Proof.
  induction elems as [|h rest [IHf IHl]]; [split; [constructor|apply Nat.le_refl]|].
  cbn [schedule_tables_in filter]. fold (is_schedule_heading h).
  assert (Hrest : Forall (fun t => name_of t = lit "table" /\ In t (h :: rest))
                    (schedule_tables_in rest)).
  { eapply Forall_impl; [|exact IHf]. cbn. intros t [Hn Hin]. split; [exact Hn|].
    right. exact Hin. }
  destruct (is_schedule_heading h).
  - destruct (List.find (has_name (lit "table")) rest) as [tbl|] eqn:Hfind.
    + apply find_has_name in Hfind as [Hn Hin]. split.
      * constructor; [split; [exact Hn|right; exact Hin]|exact Hrest].
      * cbn [app length]. lia.
    + split; [exact Hrest|]. cbn [app length]. lia.
  - split; [exact Hrest|exact IHl].
Qed.

(** X11: every node [find_schedule_tables] returns is a [table] tag of
    the page, and it returns at most one per heading [h2] or [h3] whose
    text contains the marker "Spieltermine" (none when no heading does). *)
Theorem X11_schedule_tables_are_tables :
  forall soup,
    Forall (fun t => name_of t = lit "table" /\ In t (descendant_tags soup))
      (find_schedule_tables soup)
    /\ (length (find_schedule_tables soup)
        <= length (filter is_schedule_heading (descendant_tags soup)))%nat.
Proof. intros soup. apply schedule_tables_in_spec. Qed.

Section Run.

Variable http_get : str -> option str.
Variable parse_html : str -> option node.
Variable urljoin : str -> str -> option str.
Variable url : str.
Variable default_duration : Z.
Variable enrich_halls : bool.

Let row := parse_row http_get parse_html urljoin url default_duration enrich_halls.
Let records := row_records http_get parse_html urljoin url default_duration enrich_halls.
Let rows := parse_rows http_get parse_html urljoin url default_duration enrich_halls.
Let tables := parse_tables http_get parse_html urljoin url default_duration enrich_halls.

Let ok := row_ok http_get parse_html urljoin url default_duration enrich_halls.

Lemma parse_rows_ok trs : forall acc out,
  rows trs acc = Ok out <->
  Forall ok trs /\ out = acc ++ flat_map records trs.
Proof.
  subst rows records row ok. unfold row_ok.
  induction trs as [|tr rest IH]; intros acc out.
  - cbn. rewrite app_nil_r. split.
    + intros [= <-]. split; [constructor|reflexivity].
    + intros [_ ->]. reflexivity.
  - cbn [parse_rows flat_map].
    destruct (parse_row _ _ _ _ _ _ (find_all (lit "td") tr)) as [[|r]|e] eqn:Hr;
      cbn [bind].
    + replace (row_records http_get parse_html urljoin url default_duration
                 enrich_halls tr) with (@nil MatchRecord)
        by (unfold row_records; rewrite Hr; reflexivity).
      rewrite IH. cbn [app]. split.
      * intros [Hf ->]. split; [|reflexivity].
        constructor; [exists Skip; exact Hr|exact Hf].
      * intros [Hf ->]. inversion Hf; subst. split; [assumption|reflexivity].
    + replace (row_records http_get parse_html urljoin url default_duration
                 enrich_halls tr) with [r]
        by (unfold row_records; rewrite Hr; reflexivity).
      rewrite IH. rewrite <- app_assoc. cbn [app]. split.
      * intros [Hf ->]. split; [|reflexivity].
        constructor; [exists (Emit r); exact Hr|exact Hf].
      * intros [Hf ->]. inversion Hf; subst. split; [assumption|reflexivity].
    + split; [discriminate|].
      intros [Hf _]. inversion Hf as [|? ? [o Ho] ?]; subst.
      rewrite Hr in Ho. discriminate.
Qed.

Lemma parse_rows_raises trs : forall acc e,
  rows trs acc = Raise e ->
  exists tr, In tr trs /\ row (find_all (lit "td") tr) = Raise e.
Proof.
  subst rows row.
  induction trs as [|tr rest IH]; intros acc e; [discriminate|].
  cbn [parse_rows].
  destruct (parse_row _ _ _ _ _ _ (find_all (lit "td") tr)) as [[|r]|e'] eqn:Hr;
    cbn [bind].
  - intros H. apply IH in H as (tr' & Hin & H). exists tr'. split; [right|]; assumption.
  - intros H. apply IH in H as (tr' & Hin & H). exists tr'. split; [right|]; assumption.
  - intros [= <-]. exists tr. split; [left; reflexivity|exact Hr].
Qed.

Lemma parse_tables_ok tbls : forall acc out,
  tables tbls acc = Ok out <->
  Forall (fun tbl => Forall ok (find_all (lit "tr") tbl)) tbls
  /\ out = acc ++ table_records http_get parse_html urljoin url default_duration
                    enrich_halls tbls.
Proof.
  subst tables. unfold table_records.
  induction tbls as [|tbl rest IH]; intros acc out.
  - cbn. rewrite app_nil_r. split.
    + intros [= <-]. split; [constructor|reflexivity].
    + intros [_ ->]. reflexivity.
  - cbn [parse_tables flat_map].
    destruct (parse_rows _ _ _ _ _ _ (find_all (lit "tr") tbl) acc) as [mid|e] eqn:Hm;
      cbn [bind].
    + apply parse_rows_ok in Hm as [Hf ->]. rewrite IH, <- app_assoc. split.
      * intros [Hr ->]. split; [constructor; assumption|reflexivity].
      * intros [Hr ->]. inversion Hr; subst. split; [assumption|reflexivity].
    + split; [discriminate|]. intros [Hr _]. inversion Hr as [|? ? Hf ?]; subst.
      assert (Hok : rows (find_all (lit "tr") tbl) acc
                    = Ok (acc ++ flat_map records (find_all (lit "tr") tbl)))
        by (apply parse_rows_ok; split; [exact Hf|reflexivity]).
      subst rows. rewrite Hm in Hok. discriminate.
Qed.

Lemma parse_tables_raises tbls : forall acc e,
  tables tbls acc = Raise e ->
  exists tbl tr, In tbl tbls /\ In tr (find_all (lit "tr") tbl)
                 /\ row (find_all (lit "td") tr) = Raise e.
Proof.
  subst tables.
  induction tbls as [|tbl rest IH]; intros acc e; [discriminate|].
  cbn [parse_tables].
  destruct (parse_rows _ _ _ _ _ _ (find_all (lit "tr") tbl) acc) as [mid|e'] eqn:Hm;
    cbn [bind].
  - intros H. apply IH in H as (tbl' & tr & Hin & Hin' & H).
    exists tbl', tr. split; [right; exact Hin|]. split; assumption.
  - intros [= <-]. apply parse_rows_raises in Hm as (tr & Hin & H).
    exists tbl, tr. split; [left; reflexivity|]. split; assumption.
Qed.

End Run.

(** X12: [parse_team_portrait] succeeds exactly when the page is fetched
    and parsed, it has a schedule table, and the row parser ends without
    an error on every row of every schedule table; the result then holds
    the records of the emitted rows in document order, table after table,
    and nothing for the skipped rows. *)
Theorem X12_records_in_document_order :
  forall http_get parse_html urljoin url default_duration enrich_halls out,
    parse_team_portrait http_get parse_html urljoin url default_duration
      enrich_halls = Ok out
    <->
    exists html soup,
      http_get url = Some html
      /\ parse_html html = Some soup
      /\ find_schedule_tables soup <> []
      /\ Forall (fun tbl =>
                   Forall (row_ok http_get parse_html urljoin url
                             default_duration enrich_halls)
                     (find_all (lit "tr") tbl))
           (find_schedule_tables soup)
      /\ out = table_records http_get parse_html urljoin url default_duration
                 enrich_halls (find_schedule_tables soup).
Proof.
  intros. unfold parse_team_portrait, fetch. split.
  - destruct (http_get url) as [html|] eqn:Hg; [|discriminate].
    cbn [bind].
    destruct (parse_html html) as [soup|] eqn:Hs; [|discriminate].
    destruct (find_schedule_tables soup) as [|tbl tbls] eqn:Ht;
      [discriminate|].
    intros H. apply parse_tables_ok in H as [Hf ->].
    exists html, soup. rewrite Ht. split; [reflexivity|]. split; [exact Hs|].
    split; [discriminate|]. split; [exact Hf|reflexivity].
  - intros (html & soup & Hg & Hs & Hne & Hf & ->).
    rewrite Hg. cbn [bind]. rewrite Hs.
    destruct (find_schedule_tables soup) as [|tbl tbls] eqn:Ht;
      [congruence|].
    apply parse_tables_ok. split; [exact Hf|reflexivity].
Qed.

(** X13: a single row on which the row parser raises, anywhere in a
    schedule table of the fetched and parsed page, makes the whole run
    end in an error: a [ValueError], an [OverflowError] or, with venue
    enrichment only, a [ParserRejectedMarkup]. No record is returned, not
    even those of the rows before it. *)
Theorem X13_failing_row_aborts_run :
  forall http_get parse_html urljoin url default_duration enrich_halls
         html soup tbl tr e,
    http_get url = Some html ->
    parse_html html = Some soup ->
    In tbl (find_schedule_tables soup) ->
    In tr (find_all (lit "tr") tbl) ->
    parse_row http_get parse_html urljoin url default_duration enrich_halls
      (find_all (lit "td") tr) = Raise e ->
    exists e',
      parse_team_portrait http_get parse_html urljoin url default_duration
        enrich_halls = Raise e'
      /\ (e' = ValueError \/ e' = OverflowError
          \/ (e' = ParserRejectedMarkup /\ enrich_halls = true)).
Proof.
  intros * Hg Hs Htbl Htr Hrow.
  unfold parse_team_portrait, fetch. rewrite Hg. cbn [bind]. rewrite Hs.
  destruct (find_schedule_tables soup) as [|t ts] eqn:Ht;
    [destruct Htbl|].
  destruct (parse_tables _ _ _ _ _ _ (t :: ts) []) as [out|e'] eqn:Hp.
  - exfalso. apply parse_tables_ok in Hp as [Hf _].
    rewrite Forall_forall in Hf. specialize (Hf tbl Htbl).
    rewrite Forall_forall in Hf. destruct (Hf tr Htr) as [o Ho].
    rewrite Hrow in Ho. discriminate.
  - exists e'. split; [reflexivity|].
    apply parse_tables_raises in Hp as (tbl' & tr' & _ & _ & Hr).
    eapply parse_row_error_kind. exact Hr.
Qed.

Lemma X13_witness :
  exists e',
    parse_team_portrait online bad_row_parser plain_join [] 90 false = Raise e'
    /\ (e' = ValueError \/ e' = OverflowError
        \/ (e' = ParserRejectedMarkup /\ false = true)).
Proof.
  apply (X13_failing_row_aborts_run online bad_row_parser plain_join [] 90 false
           (lit "<html></html>") team_page_bad_row
           (elem "table" [elem "tr" scenario_row; elem "tr" impossible_date_row])
           (elem "tr" impossible_date_row) ValueError).
  - reflexivity.
  - reflexivity.
  - vm_compute. left. reflexivity.
  - vm_compute. right. left. reflexivity.
  - vm_compute. reflexivity.
Defined.

Lemma parse_row_no_enrich http_get parse_html urljoin url
  http_get' parse_html' urljoin' url' default_duration tds :
  parse_row http_get parse_html urljoin url default_duration false tds =
  parse_row http_get' parse_html' urljoin' url' default_duration false tds.
Proof. reflexivity. Qed.

Lemma parse_rows_no_enrich http_get parse_html urljoin url
  http_get' parse_html' urljoin' url' default_duration trs : forall acc,
  parse_rows http_get parse_html urljoin url default_duration false trs acc =
  parse_rows http_get' parse_html' urljoin' url' default_duration false trs acc.
Proof.
  induction trs as [|tr rest IH]; intros acc; [reflexivity|].
  cbn [parse_rows].
  rewrite (parse_row_no_enrich http_get parse_html urljoin url
             http_get' parse_html' urljoin' url').
  destruct (parse_row _ _ _ _ _ _ _) as [[|r]|e]; cbn [bind];
    [apply IH|apply IH|reflexivity].
Qed.

Lemma parse_tables_no_enrich http_get parse_html urljoin url
  http_get' parse_html' urljoin' url' default_duration tbls : forall acc,
  parse_tables http_get parse_html urljoin url default_duration false tbls acc =
  parse_tables http_get' parse_html' urljoin' url' default_duration false tbls acc.
Proof.
  induction tbls as [|tbl rest IH]; intros acc; [reflexivity|].
  cbn [parse_tables].
  rewrite (parse_rows_no_enrich http_get parse_html urljoin url
             http_get' parse_html' urljoin' url').
  destruct (parse_rows _ _ _ _ _ _ _ _); cbn [bind]; [apply IH|reflexivity].
Qed.

(** X14: with venue enrichment disabled, the result of
    [parse_team_portrait] depends on the network only through the answer
    to the request for the team page: no other address is fetched and
    [urljoin] plays no part. *)
Theorem X14_no_enrich_fetches_team_page_only :
  forall http_get http_get' parse_html urljoin urljoin' url default_duration,
    http_get url = http_get' url ->
    parse_team_portrait http_get parse_html urljoin url default_duration false =
    parse_team_portrait http_get' parse_html urljoin' url default_duration false.
Proof.
  intros * H. unfold parse_team_portrait, fetch. rewrite H.
  destruct (http_get' url) as [html|]; [|reflexivity]. cbn [bind].
  destruct (parse_html html) as [soup|]; [|reflexivity].
  destruct (find_schedule_tables soup); [reflexivity|].
  apply parse_tables_no_enrich.
Qed.

Lemma X14_witness :
  online (lit "team") = team_only (lit "team")
  /\ parse_team_portrait online team_page_parser plain_join (lit "team") 90 false =
     parse_team_portrait team_only team_page_parser strict_join (lit "team") 90 false.
Proof.
  assert (H : online (lit "team") = team_only (lit "team")) by reflexivity.
  split; [exact H|].
  exact (X14_no_enrich_fetches_team_page_only online team_only team_page_parser
           plain_join strict_join (lit "team") 90 H).
Defined.

(** ** Further properties: what the fields of a record are made of *)

Lemma single_spaced_app a b :
  single_spaced (a ++ b) <-> single_spaced a /\ single_spaced b.
Proof. unfold single_spaced. rewrite forallb_app, andb_true_iff. tauto. Qed.

Lemma single_spaced_cons c s :
  single_spaced (c :: s) <->
  (is_space c = false \/ c = SP) /\ single_spaced s.
Proof.
  unfold single_spaced. cbn [forallb].
  rewrite andb_true_iff, orb_true_iff, negb_true_iff, N.eqb_eq. tauto.
Qed.

Lemma nospace_single_spaced w : nospace w -> single_spaced w.
Proof.
  unfold nospace, single_spaced. intros H.
  rewrite forallb_forall in *. intros c Hc. rewrite (H c Hc). reflexivity.
Qed.

Lemma single_spaced_join sep ws :
  single_spaced sep -> Forall single_spaced ws -> single_spaced (join sep ws).
Proof.
  intros Hs. induction 1 as [|w ws Hw Hws IH]; [reflexivity|].
  destruct ws as [|w' ws]; [exact Hw|].
  rewrite join_cons2. apply single_spaced_app. split; [exact Hw|].
  apply single_spaced_app. split; [exact Hs|exact IH].
Qed.

Lemma single_spaced_norm s : single_spaced (norm s).
Proof.
  rewrite norm_split. apply single_spaced_join; [reflexivity|].
  eapply Forall_impl; [|apply split_words].
  intros w [_ Hw]. apply nospace_single_spaced. exact Hw.
Qed.

Lemma digit_char_not_space n : is_space (digit_char (n mod 10)) = false.
Proof.
  pose proof (Z.mod_pos_bound n 10 ltac:(lia)) as H.
  assert (E : n mod 10 = 0 \/ n mod 10 = 1 \/ n mod 10 = 2 \/ n mod 10 = 3
              \/ n mod 10 = 4 \/ n mod 10 = 5 \/ n mod 10 = 6 \/ n mod 10 = 7
              \/ n mod 10 = 8 \/ n mod 10 = 9) by lia.
  repeat (destruct E as [E|E]; [rewrite E; reflexivity|]). rewrite E. reflexivity.
Qed.

Lemma single_spaced_pad2 n : single_spaced (pad2 n).
Proof.
  unfold pad2. repeat (apply single_spaced_cons; split;
                       [left; apply digit_char_not_space|]). reflexivity.
Qed.

Lemma single_spaced_pad4 n : single_spaced (pad4 n).
Proof.
  unfold pad4. repeat (apply single_spaced_cons; split;
                       [left; apply digit_char_not_space|]). reflexivity.
Qed.

Lemma single_spaced_two (a b : str) :
  single_spaced a -> single_spaced b -> single_spaced (a ++ b).
Proof. intros Ha Hb. exact (proj2 (single_spaced_app a b) (conj Ha Hb)). Qed.

Lemma single_spaced_fmt_date t : single_spaced (fmt_date t).
Proof.
  unfold fmt_date.
  apply (single_spaced_two (pad2 (month t))); [apply single_spaced_pad2|].
  apply (single_spaced_two [SLASH]); [reflexivity|].
  apply (single_spaced_two (pad2 (day t))); [apply single_spaced_pad2|].
  apply (single_spaced_two [SLASH]); [reflexivity|].
  apply single_spaced_pad4.
Qed.

Lemma single_spaced_fmt_time t : single_spaced (fmt_time t).
Proof.
  unfold fmt_time.
  apply (single_spaced_two (pad2 (hour t))); [apply single_spaced_pad2|].
  apply (single_spaced_two [COLON]); [reflexivity|].
  apply single_spaced_pad2.
Qed.

Lemma span_digits_spec s :
  s = fst (span_digits s) ++ snd (span_digits s)
  /\ forallb is_digit (fst (span_digits s)) = true.
Proof.
  induction s as [|c s [IH1 IH2]]; [split; reflexivity|].
  cbn [span_digits]. destruct (is_digit c) eqn:Hc.
  - destruct (span_digits s) as [d r]. cbn [fst snd] in *. split.
    + cbn [app]. rewrite <- IH1. reflexivity.
    + cbn [forallb]. rewrite Hc, IH2. reflexivity.
  - split; reflexivity.
Qed.

(** What a match of the score pattern at the head of a string looks like. *)
Lemma SCORE_RE_at_inv s m :
  SCORE_RE_at s = Some m ->
  exists a b post,
    s = m ++ post /\ m = a ++ COLON :: b /\ a <> [] /\ b <> []
    /\ forallb is_digit a = true /\ forallb is_digit b = true.
Proof.
  unfold SCORE_RE_at.
  pose proof (span_digits_spec s) as [Hs Ha].
  destruct (span_digits s) as [a r]. cbn [fst snd] in *.
  destruct a as [|a0 a]; [discriminate|].
  destruct r as [|c r]; [discriminate|].
  destruct (N.eqb c COLON) eqn:Hc; [|discriminate].
  apply N.eqb_eq in Hc. subst c.
  pose proof (span_digits_spec r) as [Hr Hb].
  destruct (span_digits r) as [b post]. cbn [fst snd] in *.
  destruct b as [|b0 b]; [discriminate|].
  intros [= <-]. exists (a0 :: a), (b0 :: b), post.
  repeat split; try discriminate; try assumption.
  rewrite Hs, Hr. cbn [app]. rewrite <- !app_assoc. reflexivity.
Qed.

Lemma re_search_suffix {G} (at_ : str -> option G) s g :
  re_search at_ s = Some g -> exists pre suf, s = pre ++ suf /\ at_ suf = Some g.
Proof.
  intros H. apply re_search_leftmost in H as (pre & suf & E & Hat & _).
  exists pre, suf. split; assumption.
Qed.

Lemma digits_single_spaced a : forallb is_digit a = true -> single_spaced a.
Proof.
  intros H. apply nospace_single_spaced. unfold nospace.
  rewrite forallb_forall in *. intros c Hc.
  rewrite (digit_not_space c (H c Hc)). reflexivity.
Qed.

(** X15: a score found by the description's pattern is a piece of the
    result text made of one or more digits, a colon, and one or more
    digits. *)
Theorem X15_score_is_digits_colon_digits :
  forall s m,
    SCORE_RE_search s = Some m ->
    exists pre a b post,
      s = pre ++ m ++ post /\ m = a ++ COLON :: b
      /\ a <> [] /\ b <> []
      /\ forallb is_digit a = true /\ forallb is_digit b = true.
Proof.
  intros s m H. apply re_search_suffix in H as (pre & suf & -> & H).
  apply SCORE_RE_at_inv in H as (a & b & post & -> & Hm & Ha & Hb & Hda & Hdb).
  exists pre, a, b, post. repeat split; assumption.
Qed.

Lemma X15_witness :
  exists pre a b post,
    lit "ab 13:1 n.V." = pre ++ lit "13:1" ++ post /\ lit "13:1" = a ++ COLON :: b
    /\ a <> [] /\ b <> []
    /\ forallb is_digit a = true /\ forallb is_digit b = true.
Proof.
  apply (X15_score_is_digits_colon_digits (lit "ab 13:1 n.V.") (lit "13:1")).
  vm_compute. reflexivity.
Defined.

Lemma single_spaced_score s m :
  SCORE_RE_search s = Some m -> single_spaced m.
Proof.
  intros H. apply re_search_suffix in H as (pre & suf & -> & H).
  apply SCORE_RE_at_inv in H as (a & b & post & _ & -> & _ & _ & Hda & Hdb).
  apply single_spaced_app. split; [apply digits_single_spaced; exact Hda|].
  apply single_spaced_cons. split; [left; reflexivity|].
  apply digits_single_spaced. exact Hdb.
Qed.

Lemma collect_blocks_single_spaced sibs : forall acc,
  Forall single_spaced acc -> Forall single_spaced (collect_blocks sibs acc).
Proof.
  induction sibs as [|sib rest IH]; intros acc Hacc; [exact Hacc|].
  cbn [collect_blocks].
  destruct (truthy (name_of sib) && is_h1_4 (name_of sib)); [exact Hacc|].
  match goal with
  | |- context [if (3 <=? length ?l)%nat then _ else _] =>
      assert (Hl : Forall single_spaced l)
  end.
  { destruct (existsb _ _); [|exact Hacc].
    destruct (truthy _); [|exact Hacc].
    apply Forall_app. split; [exact Hacc|].
    constructor; [apply single_spaced_norm|constructor]. }
  destruct (3 <=? _)%nat; [exact Hl|apply IH; exact Hl].
Qed.

Lemma scan_headings_single_spaced elems :
  Forall single_spaced (scan_headings elems).
Proof.
  induction elems as [|t rest IH]; [constructor|].
  cbn [scan_headings]. destruct (_ && _); [|exact IH].
  apply collect_blocks_single_spaced. constructor.
Qed.

Lemma hall_address_single_spaced http_get parse_html urljoin cell page_url loc :
  hall_address_from_cell http_get parse_html urljoin cell page_url = Ok loc ->
  single_spaced loc.
Proof.
  unfold hall_address_from_cell.
  destruct (find (lit "a") cell) as [a|];
    [|intros [= <-]; apply single_spaced_norm].
  destruct (attr_get (lit "href") (attrs_of a)) as [[|c h]|];
    try (intros [= <-]; apply single_spaced_norm).
  destruct (urljoin page_url (c :: h)); [|discriminate].
  destruct (fetch http_get s) as [html|];
    [|intros [= <-]; apply single_spaced_norm].
  destruct (parse_html html) as [hs|]; [|discriminate].
  cbv zeta.
  match goal with
  | |- context [contains _ ?x] => assert (Haddr : single_spaced x)
  end.
  { pose proof (scan_headings_single_spaced (descendant_tags hs)) as Hs.
    destruct (scan_headings _); [apply single_spaced_norm|].
    apply single_spaced_join; [reflexivity|exact Hs]. }
  destruct (truthy _ && negb _); intros [= <-]; [|exact Haddr].
  refine (proj2 (single_spaced_app _ _) (conj (single_spaced_norm _) _)).
  refine (proj2 (single_spaced_app [SP; EN_DASH; SP] _) (conj eq_refl Haddr)).
Qed.

Lemma single_spaced_lit_app (l x : str) :
  single_spaced l -> single_spaced x -> single_spaced (l ++ x).
Proof. intros Hl Hx. exact (proj2 (single_spaced_app l x) (conj Hl Hx)). Qed.

Lemma parse_row_single_spaced http_get parse_html urljoin url default_duration
  enrich_halls tds r :
  parse_row http_get parse_html urljoin url default_duration enrich_halls tds
    = Ok (Emit r) ->
  Forall single_spaced (dict_to_list r).
Proof.
  assert (Hcell : forall (b : bool) i,
             single_spaced (if b then cell_text (item tds i) else [])).
  { intros [|] i; [apply single_spaced_norm|reflexivity]. }
  unfold parse_row. cbv zeta.
  set (nr := if (5 <=? length tds)%nat then cell_text (item tds 4) else []).
  set (home := if (6 <=? length tds)%nat then cell_text (item tds 5) else []).
  set (away := if (7 <=? length tds)%nat then cell_text (item tds 6) else []).
  set (res := if (8 <=? length tds)%nat then cell_text (item tds 7) else []).
  assert (Hnr : single_spaced nr) by apply Hcell.
  assert (Hhome : single_spaced home) by apply Hcell.
  assert (Haway : single_spaced away) by apply Hcell.
  clearbody nr home away res. clear Hcell.
  destruct (length tds <? 7)%nat; [discriminate|].
  destruct (DATE_RE_search _); [|discriminate].
  destruct (parse_datetime _ _) as [[start_dt|]|]; cbn [bind]; try discriminate.
  destruct (add_minutes _ _) as [end_dt|]; cbn [bind]; [|discriminate].
  match goal with
  | |- bind ?l _ = _ -> _ => destruct l as [loc|] eqn:Hloc
  end; cbn [bind]; [|discriminate].
  assert (Hl : single_spaced loc).
  { destruct enrich_halls.
    - eapply hall_address_single_spaced. exact Hloc.
    - injection Hloc as <-. apply single_spaced_norm. }
  intros [= <-]. unfold dict_to_list.
  cbn [Subject Start_Date Start_Time End_Date End_Time All_Day_Event
       Description Location Private].
  apply Forall_cons.
  { exact (single_spaced_lit_app home (lit " vs. " ++ away) Hhome
             (single_spaced_lit_app (lit " vs. ") away eq_refl Haway)). }
  apply Forall_cons; [apply single_spaced_fmt_date|].
  apply Forall_cons; [apply single_spaced_fmt_time|].
  apply Forall_cons; [apply single_spaced_fmt_date|].
  apply Forall_cons; [apply single_spaced_fmt_time|].
  apply Forall_cons; [reflexivity|].
  apply Forall_cons.
  { apply single_spaced_join; [reflexivity|].
    assert (Hparts : Forall single_spaced
                       (if truthy nr then [] ++ [lit "Spiel Nr.: " ++ nr] else [])).
    { destruct (truthy nr); [|constructor].
      apply Forall_cons; [|constructor].
      exact (single_spaced_lit_app (lit "Spiel Nr.: ") nr eq_refl Hnr). }
    destruct (truthy res); [|exact Hparts].
    destruct (SCORE_RE_search res) as [m|] eqn:Hm; [|exact Hparts].
    apply Forall_app. split; [exact Hparts|].
    apply Forall_cons; [|constructor].
    exact (single_spaced_lit_app (lit "Ergebnis: ") m eq_refl
             (single_spaced_score res m Hm)). }
  apply Forall_cons; [exact Hl|].
  apply Forall_cons; [reflexivity|constructor].
Qed.

(** X16: every field of an emitted record is free of line breaks, tabs
    and no-break spaces: its only white space is the plain space. *)
Theorem X16_fields_single_spaced :
  forall http_get parse_html urljoin url default_duration enrich_halls tds r,
    parse_row http_get parse_html urljoin url default_duration enrich_halls tds
      = Ok (Emit r) ->
    single_spaced (Subject r) /\ single_spaced (Start_Date r)
    /\ single_spaced (Start_Time r) /\ single_spaced (End_Date r)
    /\ single_spaced (End_Time r) /\ single_spaced (All_Day_Event r)
    /\ single_spaced (Description r) /\ single_spaced (Location r)
    /\ single_spaced (Private r).
Proof.
  intros * H. apply parse_row_single_spaced in H. unfold dict_to_list in H.
  repeat match goal with
         | H : Forall _ (_ :: _) |- _ => inversion H; subst; clear H
         end.
  repeat split; assumption.
Qed.

Lemma X16_witness :
  parse_row offline empty_page plain_join [] 90 false scenario_row
    = Ok (Emit scenario_record)
  /\ single_spaced (Subject scenario_record)
  /\ single_spaced (Start_Date scenario_record)
  /\ single_spaced (Start_Time scenario_record)
  /\ single_spaced (End_Date scenario_record)
  /\ single_spaced (End_Time scenario_record)
  /\ single_spaced (All_Day_Event scenario_record)
  /\ single_spaced (Description scenario_record)
  /\ single_spaced (Location scenario_record)
  /\ single_spaced (Private scenario_record).
Proof.
  assert (H : parse_row offline empty_page plain_join [] 90 false scenario_row
              = Ok (Emit scenario_record)) by (vm_compute; reflexivity).
  split; [exact H|]. exact (X16_fields_single_spaced _ _ _ _ _ _ _ _ H).
Defined.

(** ** Further properties: the written file *)

Lemma read_write_csv rows :
  Csv.read_csv (write_csv rows) = Some (fieldnames :: map dict_to_list rows).
Proof.
  unfold Csv.read_csv, write_csv.
  change (Csv.writerow fieldnames
          ++ concat (map (fun r => Csv.writerow (dict_to_list r)) rows))
    with (concat (map Csv.writerow (fieldnames :: nil))
          ++ concat (map (fun r => Csv.writerow (dict_to_list r)) rows)).
  rewrite <- (map_map dict_to_list Csv.writerow).
  rewrite <- concat_app, <- map_app.
  rewrite CsvFacts.feed_rows; [reflexivity|].
  apply Forall_app. split.
  - constructor; [|constructor]. unfold wide. cbn. lia.
  - apply Forall_forall. intros fs Hin. apply in_map_iff in Hin as (r & <- & _).
    unfold wide. cbn. lia.
Qed.

Lemma dict_to_list_inj r r' : dict_to_list r = dict_to_list r' -> r = r'.
Proof.
  destruct r as [a1 a2 a3 a4 a5 a6 a7 a8 a9], r' as [b1 b2 b3 b4 b5 b6 b7 b8 b9].
  unfold dict_to_list.
  cbn [Subject Start_Date Start_Time End_Date End_Time All_Day_Event
       Description Location Private].
  intros [= -> -> -> -> -> -> -> -> ->]. reflexivity.
Qed.

Lemma map_dict_to_list_inj rows : forall rows',
  map dict_to_list rows = map dict_to_list rows' -> rows = rows'.
Proof.
  induction rows as [|r rows IH]; intros [|r' rows']; cbn [map];
    try discriminate; [reflexivity|].
  intros H.
  assert (Hr : dict_to_list r = dict_to_list r') by congruence.
  assert (Hrows : map dict_to_list rows = map dict_to_list rows') by congruence.
  f_equal; [apply dict_to_list_inj; exact Hr|apply IH; exact Hrows].
Qed.

(** X17: [write_csv] loses nothing: two lists of records that are
    written as the same text are the same list, whatever commas, quotes
    or line breaks their fields contain. *)
Theorem X17_write_csv_injective :
  forall rows rows', write_csv rows = write_csv rows' -> rows = rows'.
Proof.
  intros rows rows' H.
  pose proof (read_write_csv rows) as E. rewrite H, read_write_csv in E.
  injection E as E. symmetry. apply map_dict_to_list_inj. exact E.
Qed.

Lemma X17_witness :
  write_csv [zero_record; scenario_record] = write_csv [zero_record; scenario_record]
  /\ [zero_record; scenario_record] = [zero_record; scenario_record].
Proof.
  assert (H : write_csv [zero_record; scenario_record]
              = write_csv [zero_record; scenario_record]) by reflexivity.
  split; [exact H|]. exact (X17_write_csv_injective _ _ H).
Defined.

Module CsvCount.

Local Notation "'count' c s" := (count_occ N.eq_dec s c)
  (at level 10, c at level 9, s at level 9, only parsing).

Lemma single_spaced_no_break f :
  single_spaced f -> count Csv.LF f = 0%nat /\ count Csv.CR f = 0%nat.
Proof.
  induction f as [|c f IH]; intros H; [split; reflexivity|].
  apply single_spaced_cons in H as [Hc Hf]. destruct (IH Hf) as [IHl IHc].
  cbn [count_occ].
  destruct (N.eq_dec c Csv.LF) as [->|_];
    [destruct Hc as [Hc|Hc]; discriminate Hc|].
  destruct (N.eq_dec c Csv.CR) as [->|_];
    [destruct Hc as [Hc|Hc]; discriminate Hc|].
  split; assumption.
Qed.

Lemma count_escape c f :
  c <> Csv.QUOTE -> count c (Csv.escape f) = count c f.
Proof.
  intros Hc. induction f as [|x f IH]; [reflexivity|].
  cbn [Csv.escape]. destruct (N.eqb x Csv.QUOTE) eqn:Hx.
  - apply N.eqb_eq in Hx. subst x. cbn [count_occ].
    destruct (N.eq_dec Csv.QUOTE c); [congruence|exact IH].
  - cbn [count_occ]. rewrite IH. reflexivity.
Qed.

Lemma count_quote_field c f :
  c <> Csv.QUOTE -> count c (Csv.quote_field f) = count c f.
Proof.
  intros Hc. unfold Csv.quote_field. destruct (existsb Csv.special f).
  - rewrite !count_occ_app, count_escape by exact Hc. cbn [count_occ].
    destruct (N.eq_dec Csv.QUOTE c); [congruence|]. lia.
  - apply count_escape. exact Hc.
Qed.

Lemma count_join_zero c fs :
  c <> Csv.COMMA -> Forall (fun f => count c f = 0%nat) fs ->
  count c (join [Csv.COMMA] fs) = 0%nat.
Proof.
  intros Hc. induction 1 as [|f fs Hf Hfs IH]; [reflexivity|].
  cbn beta in Hf.
  destruct fs as [|f' fs]; [exact Hf|].
  rewrite join_cons2. rewrite !count_occ_app. unfold char, str in *.
  rewrite Hf. cbn [count_occ Nat.add].
  destruct (N.eq_dec Csv.COMMA c); [congruence|exact IH].
Qed.

Lemma count_writerow r :
  Forall single_spaced (dict_to_list r) ->
  count Csv.LF (Csv.writerow (dict_to_list r)) = 1%nat
  /\ count Csv.CR (Csv.writerow (dict_to_list r)) = 1%nat.
Proof.
  intros H. unfold dict_to_list in *. rewrite CsvFacts.writerow_two.
  rewrite !count_occ_app.
  assert (Hz : forall c, c <> Csv.QUOTE -> c <> Csv.COMMA ->
                 (forall f, single_spaced f -> count c f = 0%nat) ->
                 count c (join [Csv.COMMA]
                            (map Csv.quote_field
                               [Subject r; Start_Date r; Start_Time r; End_Date r;
                                End_Time r; All_Day_Event r; Description r;
                                Location r; Private r])) = 0%nat).
  { intros c Hq Hk Hc. apply count_join_zero; [exact Hk|].
    apply Forall_map. eapply Forall_impl; [|exact H].
    intros f Hf. cbn beta. rewrite count_quote_field by exact Hq. apply Hc. exact Hf. }
  split.
  - rewrite Hz; [reflexivity|discriminate|discriminate|].
    intros f Hf. apply single_spaced_no_break. exact Hf.
  - rewrite Hz; [reflexivity|discriminate|discriminate|].
    intros f Hf. apply single_spaced_no_break. exact Hf.
Qed.

Lemma count_rows rows :
  Forall (fun r => Forall single_spaced (dict_to_list r)) rows ->
  count Csv.LF (concat (map (fun r => Csv.writerow (dict_to_list r)) rows))
    = length rows
  /\ count Csv.CR (concat (map (fun r => Csv.writerow (dict_to_list r)) rows))
    = length rows.
Proof.
  induction 1 as [|r rows Hr Hrows [IHl IHc]]; [split; reflexivity|].
  cbn [map concat length]. rewrite !count_occ_app.
  destruct (count_writerow r Hr) as [Hl Hc]. split.
  - exact (f_equal2 Nat.add Hl IHl).
  - exact (f_equal2 Nat.add Hc IHc).
Qed.

Lemma count_write_csv rows :
  Forall (fun r => Forall single_spaced (dict_to_list r)) rows ->
  count Csv.LF (write_csv rows) = S (length rows)
  /\ count Csv.CR (write_csv rows) = S (length rows).
Proof.
  intros H. unfold write_csv. rewrite !count_occ_app.
  assert (Hl : count Csv.LF (Csv.writerow fieldnames) = 1%nat)
    by (vm_compute; reflexivity).
  assert (Hc : count Csv.CR (Csv.writerow fieldnames) = 1%nat)
    by (vm_compute; reflexivity).
  destruct (count_rows rows H) as [Hrl Hrc]. split.
  - exact (f_equal2 Nat.add Hl Hrl).
  - exact (f_equal2 Nat.add Hc Hrc).
Qed.

End CsvCount.

(** X18: when no field of the records holds white space other than plain
    spaces, the written text has exactly one line feed and one carriage
    return per record plus one for the header: every record is one line
    of the file. *)
Theorem X18_one_line_per_record :
  forall rows,
    Forall (fun r => Forall single_spaced (dict_to_list r)) rows ->
    count_occ N.eq_dec (write_csv rows) Csv.LF = S (length rows)
    /\ count_occ N.eq_dec (write_csv rows) Csv.CR = S (length rows).
Proof. exact CsvCount.count_write_csv. Qed.

Lemma X18_witness :
  Forall (fun r => Forall single_spaced (dict_to_list r))
    [zero_record; scenario_record]
  /\ count_occ N.eq_dec (write_csv [zero_record; scenario_record]) Csv.LF = 3%nat
  /\ count_occ N.eq_dec (write_csv [zero_record; scenario_record]) Csv.CR = 3%nat.
Proof.
  assert (H : Forall (fun r => Forall single_spaced (dict_to_list r))
                [zero_record; scenario_record]).
  { repeat (apply Forall_cons || apply Forall_nil); reflexivity. }
  split; [exact H|]. exact (X18_one_line_per_record _ H).
Defined.

Lemma in_table_records http_get parse_html urljoin url default_duration
  enrich_halls tables r :
  In r (table_records http_get parse_html urljoin url default_duration
          enrich_halls tables) ->
  exists tds,
    parse_row http_get parse_html urljoin url default_duration enrich_halls tds
      = Ok (Emit r).
Proof.
  unfold table_records. intros H.
  apply in_flat_map in H as (tbl & _ & H).
  apply in_flat_map in H as (tr & _ & H).
  unfold row_records in H.
  destruct (parse_row _ _ _ _ _ _ (find_all (lit "td") tr)) as [[|r']|] eqn:Hr;
    try destruct H.
  - subst r'. exists (find_all (lit "td") tr). exact Hr.
  - destruct H.
Qed.

Lemma parse_team_portrait_records http_get parse_html urljoin url
  default_duration enrich_halls out :
  parse_team_portrait http_get parse_html urljoin url default_duration
    enrich_halls = Ok out ->
  Forall (fun r => Forall single_spaced (dict_to_list r)) out.
Proof.
  unfold parse_team_portrait, fetch.
  destruct (http_get url) as [html|]; [|discriminate]. cbn [bind].
  destruct (parse_html html) as [soup|]; [|discriminate].
  destruct (find_schedule_tables soup) as [|tbl tbls]; [discriminate|].
  intros H. apply parse_tables_ok in H as [_ ->]. cbn [app].
  apply Forall_forall. intros r Hin.
  apply in_table_records in Hin as (tds & Hr).
  eapply parse_row_single_spaced. exact Hr.
Qed.

(** X19: when [parse_team_portrait] fails, [main] fails with the same
    error, and the file is not opened. When parsing yields the records
    [rows], [main] ends in [OSError] if the output path is not writable
    and in [UnicodeEncodeError] if the text holds a surrogate or the
    closing message cannot be printed; otherwise the text it has written
    has one line per record after the header line, and the csv reader
    gets the header and the nine values of every record back from it, in
    order. *)
Theorem X19_main_writes_what_was_parsed :
  forall http_get parse_html urljoin writable printable url out duration
         no_enrich,
    let run := main http_get parse_html urljoin writable printable url out
                 duration no_enrich in
    match parse_team_portrait http_get parse_html urljoin url duration
            (negb no_enrich) with
    | Raise e => run = Raise e
    | Ok rows =>
        if writable out then
          if encodable (write_csv rows) && printable then
            exists text,
              run = Ok text
              /\ Csv.read_csv text = Some (fieldnames :: map dict_to_list rows)
              /\ count_occ N.eq_dec text Csv.LF = S (length rows)
          else run = Raise UnicodeEncodeError
        else run = Raise OSError
    end.
Proof.
  intros. subst run. unfold main, write_csv_file.
  destruct (parse_team_portrait _ _ _ _ _ _) as [rows|e] eqn:Hp; cbn [bind];
    [|reflexivity].
  destruct (writable out); [|reflexivity].
  destruct (encodable (write_csv rows)); cbn [bind andb]; [|reflexivity].
  destruct printable; [|reflexivity].
  exists (write_csv rows). split; [reflexivity|]. split; [apply read_write_csv|].
  apply CsvCount.count_write_csv. eapply parse_team_portrait_records. exact Hp.
Qed.
